(** * Fishy: stocking-report watcher and bulk exporter

    A shallow embedding of the two Python programs of the repository,

    - [fishcomparentxtANDparseAWSfunction.py]: the monitoring handler
      ([get_pdf_with_proxy], [parse_pdf], [lambda_handler]);
    - [fishyfileParsePDFtoXLS.py]: the one-shot bulk extraction into one
      sheet per county,

    together with the properties of the design document that concern them.

    Conventions of the embedding.

    - Python [str] values are [string]s; text is taken to be ASCII, so the
      character classes of [re] and the methods [strip] and [upper] are
      those of Python restricted to code points below 128.
    - External capabilities ([requests], [boto3], [twilio], [pdfplumber],
      [hashlib]) are oracles: fields of a [world] record, or Section
      variables.  What the program does with their answers is modelled
      from the source, statement by statement.
    - Effects are recorded in a trace of [event]s, in program order. *)

From Stdlib Require Import Bool Arith Lia List ZArith.
From Stdlib Require Import Strings.Ascii Strings.String Strings.Byte.
From Stdlib Require Import Sorting.Sorted Sorting.Permutation Sorting.Mergesort.
From Stdlib Require Import Numbers.DecimalString.
Import ListNotations.

Open Scope string_scope.
Open Scope list_scope.
Open Scope nat_scope.

(* ================================================================= *)
(** ** Python values and strings *)

(** The objects that flow through the programs: [None], [str], [int] and
    [list]. *)
#[warnings="-register-all"]
Inductive pyval : Type :=
| PyNone
| PyStr (s : string)
| PyInt (z : Z)
| PyList (items : list pyval).

Definition is_int (v : pyval) : bool :=
  match v with PyInt _ => true | _ => false end.

Definition code (a : ascii) : nat := nat_of_ascii a.

Definition in_range (lo hi : nat) (a : ascii) : bool :=
  (lo <=? code a) && (code a <=? hi).

(** [\d] *)
Definition is_digit (a : ascii) : bool := in_range 48 57 a.

Definition is_upper (a : ascii) : bool := in_range 65 90 a.
Definition is_lower (a : ascii) : bool := in_range 97 122 a.

(** [A-Za-z] *)
Definition is_alpha (a : ascii) : bool := is_upper a || is_lower a.

(** [\s], and the characters removed by [str.strip()]:
    TAB, LF, VT, FF, CR, FS, GS, RS, US and the space. *)
Definition is_space (a : ascii) : bool :=
  in_range 9 13 a || in_range 28 32 a.

(** [\w] *)
Definition is_word (a : ascii) : bool :=
  is_alpha a || is_digit a || Ascii.eqb a "_".

(** [[A-Za-z\s]] *)
Definition is_alpha_space (a : ascii) : bool := is_alpha a || is_space a.

Definition is_char (c : ascii) (a : ascii) : bool := Ascii.eqb a c.

Fixpoint string_forall (p : ascii -> bool) (s : string) : bool :=
  match s with
  | EmptyString => true
  | String a s' => p a && string_forall p s'
  end.

Definition hex_digit (d : nat) : ascii :=
  if d <? 10 then ascii_of_nat (48 + d) else ascii_of_nat (87 + d).

Definition quote1 : ascii := ascii_of_nat 39.
Definition quote2 : ascii := ascii_of_nat 34.
Definition backslash : ascii := ascii_of_nat 92.

Fixpoint has_char (c : ascii) (s : string) : bool :=
  match s with
  | EmptyString => false
  | String a s' => Ascii.eqb a c || has_char c s'
  end.

(** One character of [repr(s)], between quotes [q]. *)
Definition repr_char (q : ascii) (a : ascii) : string :=
  if Ascii.eqb a backslash || Ascii.eqb a q then
    String backslash (String a EmptyString)
  else if Ascii.eqb a (ascii_of_nat 9) then String backslash "t"
  else if Ascii.eqb a (ascii_of_nat 10) then String backslash "n"
  else if Ascii.eqb a (ascii_of_nat 13) then String backslash "r"
  else if (code a <? 32) || (127 <=? code a) then
    String backslash
      (String "x" (String (hex_digit (code a / 16))
                     (String (hex_digit (code a mod 16)) EmptyString)))
  else String a EmptyString.

Fixpoint repr_chars (q : ascii) (s : string) : string :=
  match s with
  | EmptyString => EmptyString
  | String a s' => (repr_char q a ++ repr_chars q s')%string
  end.

(** [repr(s)] of a [str]: single quotes, unless the text has a single
    quote and no double quote. *)
Definition repr_str (s : string) : string :=
  let q := if has_char quote1 s && negb (has_char quote2 s)
           then quote2 else quote1 in
  String q (repr_chars q s ++ String q EmptyString).

(** [repr(v)] *)
Fixpoint py_repr (v : pyval) : string :=
  match v with
  | PyNone => "None"
  | PyStr s => repr_str s
  | PyInt z => NilZero.string_of_int (Z.to_int z)
  | PyList items =>
      ("[" ++ String.concat ", " (map py_repr items) ++ "]")%string
  end.

(** [str(v)], as used by f-string interpolation. *)
Definition py_str (v : pyval) : string :=
  match v with
  | PyStr s => s
  | _ => py_repr v
  end.

(** [s[:n]] *)
Fixpoint take (n : nat) (s : string) : string :=
  match n, s with
  | S n', String a s' => String a (take n' s')
  | _, _ => EmptyString
  end.

(** [s.split(sep)] for a one-character separator. *)
Fixpoint split_on (sep : ascii) (s : string) : list string :=
  match s with
  | EmptyString => [EmptyString]
  | String a s' =>
      if Ascii.eqb a sep then EmptyString :: split_on sep s'
      else match split_on sep s' with
           | [] => [String a EmptyString]
           | w :: ws => String a w :: ws
           end
  end.

Definition upper_char (a : ascii) : ascii :=
  if is_lower a then ascii_of_nat (code a - 32) else a.

(** [s.upper()] *)
Fixpoint upper (s : string) : string :=
  match s with
  | EmptyString => EmptyString
  | String a s' => String (upper_char a) (upper s')
  end.

Fixpoint lstrip (s : string) : string :=
  match s with
  | EmptyString => EmptyString
  | String a s' => if is_space a then lstrip s' else s
  end.

Fixpoint rstrip (s : string) : string :=
  match s with
  | EmptyString => EmptyString
  | String a s' =>
      match rstrip s' with
      | EmptyString => if is_space a then EmptyString else String a EmptyString
      | t => String a t
      end
  end.

(** [s.strip()] *)
Definition strip (s : string) : string := rstrip (lstrip s).

(* ================================================================= *)
(** ** A backtracking matcher for the fragment of [re] the programs use *)

Module Re.

(** Patterns.  Repetition is over a character class, which is all the two
    patterns of the source need; it is greedy, like [+], [?] and [{m,n}]
    of [re]. *)
Inductive regex : Type :=
| Cls (p : ascii -> bool)
| Rep (p : ascii -> bool) (lo : nat) (hi : option nat)
| Seq (r1 r2 : regex)
| Opt (r : regex)
| Grp (n : nat) (r : regex).

(** The capture groups set so far, most recent binding first. *)
Definition caps : Type := list (nat * string).

Fixpoint lookup (n : nat) (c : caps) : option string :=
  match c with
  | [] => None
  | (m, w) :: c' => if Nat.eqb m n then Some w else lookup n c'
  end.

(** The part of [s] consumed when [s'] is what remains of it. *)
Definition consumed (s s' : string) : string :=
  take (String.length s - String.length s') s.

Definition may_repeat (hi : option nat) : bool :=
  match hi with
  | Some 0 => false
  | _ => true
  end.

Definition dec (hi : option nat) : option nat := option_map pred hi.

Section Matcher.
Context {R : Type}.

(** Greedy [p{lo,hi}]: take one more character whenever allowed, and
    fall back to stopping here when the rest of the pattern fails. *)
Fixpoint rep_greedy (p : ascii -> bool) (lo : nat) (hi : option nat)
    (s : string) (k : string -> option R) : option R :=
  match s with
  | String a s' =>
      if p a && may_repeat hi then
        match rep_greedy p (pred lo) (dec hi) s' k with
        | Some x => Some x
        | None => if Nat.eqb lo 0 then k s else None
        end
      else if Nat.eqb lo 0 then k s else None
  | EmptyString => if Nat.eqb lo 0 then k s else None
  end.

(** [run r s c k]: match [r] at the head of [s], then continue with [k]
    on the rest; the first success in backtracking order wins. *)
Fixpoint run (r : regex) (s : string) (c : caps)
    (k : string -> caps -> option R) : option R :=
  match r with
  | Cls p =>
      match s with
      | String a s' => if p a then k s' c else None
      | EmptyString => None
      end
  | Rep p lo hi => rep_greedy p lo hi s (fun s' => k s' c)
  | Seq r1 r2 => run r1 s c (fun s' c' => run r2 s' c' k)
  | Opt r1 =>
      match run r1 s c k with
      | Some x => Some x
      | None => k s c
      end
  | Grp n r1 => run r1 s c (fun s' c' => k s' ((n, consumed s s') :: c'))
  end.
End Matcher.

(** [re.match(r, s)]: the rest of the input and the groups, or [None]. *)
Definition rmatch (r : regex) (s : string) : option (string * caps) :=
  run r s [] (fun s' c => Some (s', c)).

(** [m.group(n)] *)
Definition group (n : nat) (m : string * caps) : pyval :=
  match lookup n (snd m) with
  | Some w => PyStr w
  | None => PyNone
  end.

(** [re.findall(r, s)] for a pattern with exactly one group: the group of
    every match, scanning left to right without overlap; a group that
    took no part in a match reads as the empty string. *)
Fixpoint findall_from (r : regex) (s : string) (skip : nat) : list string :=
  let hit m :=
    match lookup 1 (snd m) with Some w => w | None => "" end in
  match s with
  | EmptyString =>
      match skip, rmatch r s with
      | 0, Some m => [hit m]
      | _, _ => []
      end
  | String _ s' =>
      match skip with
      | S n => findall_from r s' n
      | 0 =>
          match rmatch r s with
          | Some m =>
              hit m :: findall_from r s'
                         (String.length s - String.length (fst m) - 1)
          | None => findall_from r s' 0
          end
      end
  end.

Definition findall (r : regex) (s : string) : list string :=
  findall_from r s 0.

(** A literal word. *)
Fixpoint lit (s : string) : regex :=
  match s with
  | EmptyString => Rep (fun _ => false) 0 (Some 0)
  | String a EmptyString => Cls (is_char a)
  | String a s' => Seq (Cls (is_char a)) (lit s')
  end.

Definition plus (p : ascii -> bool) : regex := Rep p 1 None.

Definition within (hi : option nat) (n : nat) : Prop :=
  match hi with
  | Some h => n <= h
  | None => True
  end.

(** What a successful [run] has done, read off the pattern: [r] takes the
    input from [s] to [s'] and the groups from [c] to [c']. *)
Fixpoint accepts (r : regex) (s : string) (c : caps) (s' : string) (c' : caps)
  : Prop :=
  match r with
  | Cls p => exists a, s = String a s' /\ p a = true /\ c' = c
  | Rep p lo hi =>
      exists w, s = (w ++ s')%string /\ string_forall p w = true /\
                lo <= String.length w /\ within hi (String.length w) /\
                c' = c
  | Seq r1 r2 => exists s1 c1, accepts r1 s c s1 c1 /\ accepts r2 s1 c1 s' c'
  | Opt r1 => accepts r1 s c s' c' \/ (s' = s /\ c' = c)
  | Grp n r1 => exists c1, accepts r1 s c s' c1 /\ c' = (n, consumed s s') :: c1
  end.

End Re.

Import Re.
Infix ">>" := Seq (at level 61, right associativity).

(* ================================================================= *)
(** ** fishyfileParsePDFtoXLS.py: the line strategy *)

(** [r'(?:REPORT\s+)?(\w+\s?\w+)\s+County'] *)
Definition county_re : regex :=
  Opt (lit "REPORT" >> plus is_space) >>
  Grp 1 (plus is_word >> Rep is_space 0 (Some 1) >> plus is_word) >>
  plus is_space >> lit "County".

(** [r'(\d{1,2}/\d{1,2}/\d{4})\s+([A-Za-z\s]+)\s+([A-Za-z\s]+)\s+([A-Za-z\s]+)\s+(\d+)\s+(\d+)'] *)
Definition line_re : regex :=
  Grp 1 (Rep is_digit 1 (Some 2) >> Cls (is_char "/") >>
         Rep is_digit 1 (Some 2) >> Cls (is_char "/") >>
         Rep is_digit 4 (Some 4)) >>
  plus is_space >> Grp 2 (plus is_alpha_space) >>
  plus is_space >> Grp 3 (plus is_alpha_space) >>
  plus is_space >> Grp 4 (plus is_alpha_space) >>
  plus is_space >> Grp 5 (plus is_digit) >>
  plus is_space >> Grp 6 (plus is_digit).

(** One row of [all_data]:
    [[current_county, date, water, city_town, species, quantity, size]],
    which become the columns of the data frame. *)
Record row : Type := mk_row {
  County : string;
  DATE : pyval;
  WATER : pyval;
  City_Town : pyval;
  Species : pyval;
  QTY : pyval;
  SIZE : pyval
}.

Definition newline : ascii := ascii_of_nat 10.

(** [if current_county:] on a value that is [None] or a [str]: the county
    when the test passes, which needs a non-empty string. *)
Definition county_set (current_county : option string) : option string :=
  match current_county with
  | Some c => if String.eqb c "" then None else Some c
  | None => None
  end.

(** Lines 43-52: the list appended for a match under a county. *)
Definition line_row (c : string) (m : string * caps) : row :=
  mk_row c (group 1 m) (group 2 m) (group 3 m)
           (group 4 m) (group 5 m) (group 6 m).

(** The body of [for line in lines]: the rows appended for one line. *)
Definition scan_line (current_county : option string) (line : string)
  : list row :=
  match rmatch line_re line with
  | Some m =>
      match county_set current_county with
      | Some c => [line_row c m]
      | None => []
      end
  | None => []
  end.

(** [county_matches = re.findall(..., text)] and the update of
    [current_county] that follows it. *)
Definition county_matches (text : string) : list string :=
  findall county_re text.

Definition next_county (current_county : option string) (text : string)
  : option string :=
  match county_matches text with
  | [] => current_county
  | m :: ms => Some (last (m :: ms) "")
  end.

(** The body of [for page_number, page in enumerate(pdf.pages)], on the
    state [(current_county, all_data)] and the text of the page. *)
Definition scan_page (st : option string * list row) (text : string)
  : option string * list row :=
  let current_county := next_county (fst st) text in
  let lines := split_on newline text in
  (current_county, snd st ++ flat_map (scan_line current_county) lines).

Definition scan_pages (pages : list string) (st : option string * list row)
  : option string * list row :=
  fold_left scan_page pages st.

(** [all_data] after the extraction loop. *)
Definition extract (pages : list string) : list row :=
  snd (scan_pages pages (None, [])).

(* ================================================================= *)
(** ** fishyfileParsePDFtoXLS.py: the export block *)

Module StringOrder <: Orders.TotalLeBool.
Definition t : Type := string.
Definition leb : t -> t -> bool := String.leb.
Definition leb_total : forall x y, leb x y = true \/ leb y x = true :=
  String.leb_total.
End StringOrder.

Module StringSort := Sort StringOrder.

(** [df.groupby("County")]: the distinct keys in sorted order, each with
    the rows that carry it, in the order of the frame. *)
Definition group_keys (df : list row) : list string :=
  StringSort.sort (nodup string_dec (map County df)).

Definition rows_of (county : string) (df : list row) : list row :=
  filter (fun r => String.eqb (County r) county) df.

Definition groupby (df : list row) : list (string * list row) :=
  map (fun county => (county, rows_of county df)) (group_keys df).

(** One [group.to_excel(writer, sheet_name=...)] call. *)
Record sheet : Type := mk_sheet {
  sheet_name : string;
  sheet_rows : list row
}.

(** How the script goes on from the answer of [requests.get]: one of its
    three [raise] statements, or the loop of lines 66-69 with the calls of
    [to_excel] it has to make, in order.  What the workbook writer does
    with a call, and that it may raise, is not part of it. *)
Inductive bulk_result : Type :=
| FetchFailed (status_code : Z)          (* line 13: raise Exception *)
| NoDataExtracted                        (* line 56: raise ValueError *)
| NoValidData                            (* line 71: raise ValueError *)
| Exported (sheets : list sheet).        (* lines 66-69 *)

(** Lines 66-69. *)
Definition write_sheets (df : list row) : list sheet :=
  map (fun g => mk_sheet (take 31 (fst g)) (snd g)) (groupby df).

(** Lines 54-71, on the rows the extraction loop produced. *)
Definition export (all_data : list row) : bulk_result :=
  match all_data with
  | [] => NoDataExtracted
  | _ :: _ =>
      let df := all_data in
      if negb (Nat.eqb (List.length df) 0)
      then Exported (write_sheets df)
      else NoValidData
  end.

(** The whole script, once [requests.get] has returned a response with
    this status and, for status 200, [pdfplumber] has opened the document
    and given the text of its pages. *)
Definition bulk_main (status_code : Z) (pages : list string) : bulk_result :=
  if negb (Z.eqb status_code 200) then FetchFailed status_code
  else export (extract pages).

(* ================================================================= *)
(** ** fishcomparentxtANDparseAWSfunction.py: the table strategy *)

(** One element of [extracted_data]. *)
Record entry : Type := mk_entry {
  e_Date : pyval;
  e_Water : pyval;
  e_City_Town : pyval;
  e_Species : pyval;
  e_QTY : pyval;
  e_Size : pyval
}.

(** The value of [table = page.extract_tables()] (line 46): the list of
    the tables that [pdfplumber] finds on the page.  Each table is the
    list of its rows, and each row is a [PyList] of cells, a cell being a
    [str] or [None]. *)
Definition table : Type := list (list pyval).

Definition is_cell (v : pyval) : bool :=
  match v with
  | PyNone | PyStr _ => true
  | _ => false
  end.

Definition is_row (v : pyval) : bool :=
  match v with
  | PyList cells => forallb is_cell cells
  | _ => false
  end.

(** The values [extract_tables] can answer. *)
Definition tables_of_rows (t : table) : Prop :=
  Forall (fun tbl => forallb is_row tbl = true) t.

(** Lines 48-57: the entries appended for one pass of [for row in table].
    The loop variable [row] is an element of [table], that is one table
    of the page: [len(row)] is the number of its rows and [row[0]] ...
    [row[5]] are its first six rows. *)
Definition row_entries (row : list pyval) : list entry :=
  if 6 <=? List.length row then
    [mk_entry (nth 0 row PyNone) (nth 1 row PyNone) (nth 2 row PyNone)
              (nth 3 row PyNone) (nth 4 row PyNone) (nth 5 row PyNone)]
  else [].

(** Lines 44-57.  A page is [None] when reading it raises: the [except]
    clause of [parse_pdf] then ends the loop and what was extracted so
    far is returned. *)
Fixpoint parse_pages (pages : list (option table)) (extracted_data : list entry)
  : list entry :=
  match pages with
  | [] => extracted_data
  | None :: _ => extracted_data
  | Some tbl :: rest =>
      parse_pages rest (extracted_data ++ flat_map row_entries tbl)
  end.

(** [parse_pdf], on what [pdfplumber.open] gives for the content: [None]
    when it raises, the pages otherwise. *)
Definition parse_pdf (pdf : option (list (option table))) : list entry :=
  match pdf with
  | None => []
  | Some pages => parse_pages pages []
  end.

(* ================================================================= *)
(** ** fishcomparentxtANDparseAWSfunction.py: the handler *)

(** The hash object of the bucket: absent, or its content. *)
Definition store : Type := option string.

(** The answers of the outside world during one invocation. *)
Record world : Type := mk_world {
  (** [os.getenv('PROXY_URLS')] *)
  PROXY_URLS : option string;
  (** whether the request for the hash object goes through *)
  hash_get_ok : bool;
  (** [requests.get(url, proxies=...)] for the proxy at a position of the
      list and an attempt: [None] for a transport error, else the status
      code and the body *)
  http_get : nat -> nat -> option (Z * list byte);
  (** whether [delete_object] and [put_object] succeed *)
  delete_ok : bool;
  put_ok : bool;
  (** [pdfplumber] on a document *)
  pdf_pages : list byte -> option (list (option table));
  (** whether the n-th [client.messages.create] succeeds *)
  send_ok : nat -> bool
}.

Inductive event : Type :=
| EvGetHash
| EvFetch (pos : nat) (proxy_url : string) (attempt : nat)
| EvSleep
| EvDelete (ok : bool)
| EvPut (body : string) (ok : bool)
| EvParse
| EvSend (body : string) (ok : bool).

(** The ways [lambda_handler] ends. *)
Inductive outcome : Type :=
| Crashed             (* line 79: [None.split], PROXY_URLS is not set *)
| HashReadError       (* line 88 *)
| HashWriteError      (* line 125 *)
| Notified            (* line 155 *)
| NoChange            (* line 159 *)
| AllProxiesFailed.   (* line 170: statusCode 500 *)

Record run : Type := mk_run {
  trace : list event;
  store_after : store;
  result : outcome
}.

(** [response.raise_for_status()] raises for 4xx and 5xx. *)
Definition raises_for_status (status_code : Z) : bool :=
  (400 <=? status_code)%Z && (status_code <? 600)%Z.

(** [get_pdf_with_proxy]: the response, or [None] when [requests] raised. *)
Definition get_pdf_with_proxy (w : world) (pos attempt : nat)
  : option (Z * list byte) :=
  match http_get w pos attempt with
  | Some (status_code, content) =>
      if raises_for_status status_code then None
      else Some (status_code, content)
  | None => None
  end.

(** [response and response.status_code == 200] *)
Definition fetched (response : option (Z * list byte)) : option (list byte) :=
  match response with
  | Some (status_code, content) =>
      if negb (raises_for_status status_code) && Z.eqb status_code 200
      then Some content else None
  | None => None
  end.

(** Lines 82-88: the expected hash, read from the store over HTTP.  When
    the request does not go through, or the object is absent and the
    answer is a 4xx status, [requests] raises and the handler returns. *)
Definition read_expected_hash (w : world) (st : store) : option string :=
  if hash_get_ok w then option_map (fun text => upper (strip text)) st
  else None.

(** [bytes.hex()] *)
Fixpoint hex (bs : list byte) : string :=
  match bs with
  | [] => EmptyString
  | b :: bs' =>
      String (hex_digit (Byte.to_nat b / 16))
        (String (hex_digit (Byte.to_nat b mod 16)) (hex bs'))
  end.

(** Lines 136-140. *)
Definition message_body (e : entry) : string :=
  ("Hello, Fish stalker letting you know that on " ++ py_str (e_Date e) ++
   ", the Water in " ++ py_str (e_City_Town e) ++
   " was stalked with " ++ py_str (e_QTY e) ++ " " ++ py_str (e_Size e) ++
   " inch of " ++ py_str (e_Species e) ++
   ". Good luck and tight lines!")%string.

(** Lines 134-153: one send per entry; a failed send is logged and the
    loop goes on. *)
Fixpoint send_all (w : world) (n : nat) (extracted_data : list entry)
  : list event :=
  match extracted_data with
  | [] => []
  | e :: rest => EvSend (message_body e) (send_ok w n) :: send_all w (S n) rest
  end.

Section Handler.
(** [hashlib.sha256(...).digest()] *)
Variable sha256 : list byte -> list byte.

(** [hashlib.sha256(file_content).hexdigest().upper()] *)
Definition file_hash_of (file_content : list byte) : string :=
  upper (hex (sha256 file_content)).

(** Lines 102-159: what is done with a document once it is fetched. *)
Definition on_fetched (w : world) (st : store) (expected_hash : string)
    (file_content : list byte) : run :=
  let file_hash := file_hash_of file_content in
  if negb (String.eqb file_hash expected_hash) then
    if negb (delete_ok w) then
      mk_run [EvDelete false] st HashWriteError
    else
      let new_hash_content := (file_hash ++ String newline "")%string in
      if negb (put_ok w) then
        mk_run [EvDelete true; EvPut new_hash_content false]
               None HashWriteError
      else
        let extracted_data := parse_pdf (pdf_pages w file_content) in
        mk_run ([EvDelete true; EvPut new_hash_content true; EvParse]
                  ++ send_all w 0 extracted_data)
               (Some new_hash_content) Notified
  else mk_run [] st NoChange.

(** Lines 98-163: the attempts still to make with one proxy.  [None]
    when they all failed and the next proxy is to be tried. *)
Fixpoint retry_loop (w : world) (st : store) (expected_hash : string)
    (pos : nat) (proxy_url : string) (left attempt : nat)
  : list event * option run :=
  match left with
  | 0 => ([], None)
  | S left' =>
      let response := get_pdf_with_proxy w pos attempt in
      match fetched response with
      | Some file_content =>
          let r := on_fetched w st expected_hash file_content in
          ([EvFetch pos proxy_url attempt], Some r)
      | None =>
          let '(t, r) :=
            retry_loop w st expected_hash pos proxy_url left' (S attempt) in
          (EvFetch pos proxy_url attempt :: EvSleep :: t, r)
      end
  end.

(** Lines 91-173: the proxies still to try, from a position of the list. *)
Fixpoint proxy_loop (w : world) (st : store) (expected_hash : string)
    (pos : nat) (proxy_urls : list string) : run :=
  match proxy_urls with
  | [] => mk_run [] st AllProxiesFailed
  | proxy_url :: rest =>
      match retry_loop w st expected_hash pos proxy_url 5 0 with
      | (t, Some r) => mk_run (t ++ trace r) (store_after r) (result r)
      | (t, None) =>
          let r := proxy_loop w st expected_hash (S pos) rest in
          mk_run (t ++ trace r) (store_after r) (result r)
      end
  end.

Definition comma : ascii := ascii_of_nat 44.

Definition lambda_handler (w : world) (st : store) : run :=
  match PROXY_URLS w with
  | None => mk_run [] st Crashed
  | Some s =>
      let proxy_urls := split_on comma s in
      match read_expected_hash w st with
      | None => mk_run [EvGetHash] st HashReadError
      | Some expected_hash =>
          let r := proxy_loop w st expected_hash 0 proxy_urls in
          mk_run (EvGetHash :: trace r) (store_after r) (result r)
      end
  end.
End Handler.

(* ================================================================= *)
(** ** Observations on runs, used to state the properties *)

(** The rows a page gives once the county [c] is in force: one per line
    that matches the record pattern, in line order. *)
Definition keyed_rows (c : string) (text : string) : list row :=
  flat_map (fun line =>
              match rmatch line_re line with
              | Some m => [line_row c m]
              | None => []
              end)
           (split_on newline text).

(** The positions, in the proxy list, of the fetch attempts of a trace. *)
Fixpoint fetches (t : list event) : list nat :=
  match t with
  | [] => []
  | EvFetch pos _ _ :: t' => pos :: fetches t'
  | _ :: t' => fetches t'
  end.

(** The send attempts of a trace: message and whether it went through. *)
Fixpoint sends (t : list event) : list (string * bool) :=
  match t with
  | [] => []
  | EvSend body ok :: t' => (body, ok) :: sends t'
  | _ :: t' => sends t'
  end.

(** The store operations of a trace. *)
Fixpoint writes (t : list event) : list event :=
  match t with
  | [] => []
  | EvDelete ok :: t' => EvDelete ok :: writes t'
  | EvPut body ok :: t' => EvPut body ok :: writes t'
  | _ :: t' => writes t'
  end.


(** The events of the fetch phase. *)
Definition fetch_phase_event (e : event) : bool :=
  match e with
  | EvGetHash | EvFetch _ _ _ | EvSleep => true
  | _ => false
  end.

(** The fetch phase on its own: the attempts made with one proxy, and over
    the list, up to the first document fetched.  [proxy_loop_fetch] below
    shows that the loops of the handler make exactly these attempts. *)
Fixpoint retry_fetch (w : world) (pos : nat) (proxy_url : string)
    (left attempt : nat) : list event * option (list byte) :=
  match left with
  | 0 => ([], None)
  | S left' =>
      match fetched (get_pdf_with_proxy w pos attempt) with
      | Some file_content => ([EvFetch pos proxy_url attempt], Some file_content)
      | None =>
          let '(t, r) := retry_fetch w pos proxy_url left' (S attempt) in
          (EvFetch pos proxy_url attempt :: EvSleep :: t, r)
      end
  end.

Fixpoint rotate_fetch (w : world) (pos : nat) (proxy_urls : list string)
  : list event * option (list byte) :=
  match proxy_urls with
  | [] => ([], None)
  | proxy_url :: rest =>
      match retry_fetch w pos proxy_url 5 0 with
      | (t, Some file_content) => (t, Some file_content)
      | (t, None) =>
          let '(t', r) := rotate_fetch w (S pos) rest in (t ++ t', r)
      end
  end.

(** A non-empty string of decimal digits. *)
Definition digits (s : string) : Prop :=
  s <> "" /\ string_forall is_digit s = true.

(** A page on which the county pattern finds nothing. *)
Definition no_header (text : string) : Prop := county_matches text = [].

(** The characters of an upper-case hexadecimal digest. *)
Definition hash_char (a : ascii) : bool := is_digit a || in_range 65 70 a.

(** The answers of [send_ok] for the sends numbered [n], [n+1], ... *)
Definition send_results (w : world) (n : nat) (extracted_data : list entry)
  : list (string * bool) :=
  combine (map message_body extracted_data)
          (map (send_ok w) (seq n (List.length extracted_data))).

(** A trace made of events of the fetch phase only. *)
Definition quiet (t : list event) : Prop :=
  Forall (fun e => fetch_phase_event e = true) t.

(** A run that goes on after the events [t]. *)
Definition after_events (t : list event) (r : run) : run :=
  mk_run (t ++ trace r) (store_after r) (result r).

(* ================================================================= *)
(** ** Shapes of text, used to state what the patterns accept *)

(** [sep.join(ws)] *)
Fixpoint join (sep : ascii) (ws : list string) : string :=
  match ws with
  | [] => EmptyString
  | [w] => w
  | w :: ws' => (w ++ String sep (join sep ws'))%string
  end.

(** A non-empty run of characters of a class. *)
Definition run_of (p : ascii -> bool) (s : string) : Prop :=
  s <> "" /\ string_forall p s = true.

(** The text a record line starts with, piece by piece: the three numbers
    of the date, the three text fields, quantity and size, and the
    whitespace [s1] ... [s5] between them. *)
Record line_pieces : Type := mk_pieces {
  p_month : string; p_day : string; p_year : string;
  p_s1 : string; p_water : string;
  p_s2 : string; p_town : string;
  p_s3 : string; p_species : string;
  p_s4 : string; p_qty : string;
  p_s5 : string; p_size : string
}.

Definition pieces_date (x : line_pieces) : string :=
  (p_month x ++ "/" ++ p_day x ++ "/" ++ p_year x)%string.

(** The pieces put together, followed by the rest of the line. *)
Definition pieces_text (x : line_pieces) (rest : string) : string :=
  (p_month x ++ "/" ++ p_day x ++ "/" ++ p_year x ++
   p_s1 x ++ p_water x ++ p_s2 x ++ p_town x ++ p_s3 x ++ p_species x ++
   p_s4 x ++ p_qty x ++ p_s5 x ++ p_size x ++ rest)%string.

Definition pieces_ok (x : line_pieces) : Prop :=
  run_of is_digit (p_month x) /\ String.length (p_month x) <= 2 /\
  run_of is_digit (p_day x) /\ String.length (p_day x) <= 2 /\
  string_forall is_digit (p_year x) = true /\ String.length (p_year x) = 4 /\
  run_of is_space (p_s1 x) /\ run_of is_alpha_space (p_water x) /\
  run_of is_space (p_s2 x) /\ run_of is_alpha_space (p_town x) /\
  run_of is_space (p_s3 x) /\ run_of is_alpha_space (p_species x) /\
  run_of is_space (p_s4 x) /\ run_of is_digit (p_qty x) /\
  run_of is_space (p_s5 x) /\ run_of is_digit (p_size x).

(** The row made of the pieces. *)
Definition pieces_row (c : string) (x : line_pieces) : row :=
  mk_row c (PyStr (pieces_date x)) (PyStr (p_water x)) (PyStr (p_town x))
         (PyStr (p_species x)) (PyStr (p_qty x)) (PyStr (p_size x)).

(** The number of occurrences of a character. *)
Fixpoint count_char (c : ascii) (s : string) : nat :=
  match s with
  | EmptyString => 0
  | String a s' => (if Ascii.eqb a c then 1 else 0) + count_char c s'
  end.

(** The number of sleeps of a trace. *)
Fixpoint sleeps (t : list event) : nat :=
  match t with
  | [] => 0
  | EvSleep :: t' => S (sleeps t')
  | _ :: t' => sleeps t'
  end.

(* ================================================================= *)
(** ** Worlds for the examples *)

(** A stand-in for the digest in the examples: the content itself. *)
Definition toy_digest (bs : list byte) : list byte := bs.

Definition example_document : list byte := [x25; x50; x44; x46].

Definition example_row (date water town species qty size : string) : pyval :=
  PyList [PyStr date; PyStr water; PyStr town; PyStr species;
          PyStr qty; PyStr size].

Definition example_rows : list pyval :=
  [PyList [PyStr "Date"; PyStr "Water"; PyStr "City/Town"; PyStr "Species";
           PyStr "QTY"; PyStr "Size"];
   example_row "3/1/2024" "KENNEBEC R" "WATERVILLE" "BROOK TROUT" "300" "10";
   example_row "3/2/2024" "MOOSE P" "HARTLAND" "BROWN TROUT" "50" "12";
   example_row "3/2/2024" "SANDY R" "FARMINGTON" "BROOK TROUT" "200" "8";
   example_row "3/3/2024" "CHINA L" "CHINA" "BROWN TROUT" "75" "14";
   PyList [PyStr "3/3/2024"; PyStr "LONG P"; PyNone; PyStr "SPLAKE";
           PyStr "40"; PyStr "9"]].

(** A page with three tables: of six rows, of two rows and of seven. *)
Definition example_table : table :=
  [example_rows;
   [example_row "3/4/2024" "WILSON P" "WILTON" "BROOK TROUT" "100" "10";
    example_row "3/4/2024" "CLEARWATER P" "INDUSTRY" "SPLAKE" "60" "11"];
   example_rows ++
     [example_row "3/5/2024" "EMBDEN P" "EMBDEN" "BROOK TROUT" "150" "9"]].

(** The first proxy answers 503 each time, the second one 200 at once. *)
Definition second_proxy_answers (pos attempt : nat) : option (Z * list byte) :=
  match pos with
  | 0 => Some (503%Z, [])
  | 1 => Some (200%Z, example_document)
  | _ => None
  end.

Definition no_proxy_answers (pos attempt : nat) : option (Z * list byte) :=
  None.

(** A world with the proxy setting and the answers given; the second
    send fails. *)
Definition example_world (urls : option string)
    (get : nat -> nat -> option (Z * list byte)) (del put : bool) : world :=
  mk_world urls true get del put
           (fun _ => Some [Some example_table])
           (fun n => negb (Nat.eqb n 1)).

(** Takes apart the existentials, conjunctions and disjunctions among the
    hypotheses. *)
Ltac break :=
  repeat match goal with
  | H : exists _, _ |- _ => destruct H
  | H : _ /\ _ |- _ => destruct H
  | H : _ \/ _ |- _ => destruct H
  end.

(* ================================================================= *)
(** * Properties *)

(** ** Strings *)

Lemma string_length_app (s t : string) :
  String.length (s ++ t)%string = String.length s + String.length t.
Proof. induction s as [|a s IH]; simpl; [reflexivity | now rewrite IH]. Qed.

Lemma take_app (w s' : string) : take (String.length w) (w ++ s')%string = w.
Proof. induction w as [|a w IH]; simpl; [now destruct s' | now rewrite IH]. Qed.

Lemma consumed_app (w s' : string) : consumed (w ++ s')%string s' = w.
Proof.
  unfold consumed. rewrite string_length_app.
  replace (String.length w + String.length s' - String.length s')
    with (String.length w) by lia.
  apply take_app.
Qed.

Lemma app_assoc_s (a b c : string) :
  ((a ++ b) ++ c)%string = (a ++ (b ++ c))%string.
Proof. induction a as [|x a IH]; simpl; [reflexivity | now rewrite IH]. Qed.

Lemma string_forall_app (p : ascii -> bool) (a b : string) :
  string_forall p (a ++ b)%string = string_forall p a && string_forall p b.
Proof.
  induction a as [|x a IH]; simpl; [reflexivity|].
  now rewrite IH, andb_assoc.
Qed.

Lemma length_zero_empty (s : string) : String.length s = 0 -> s = "".
Proof. destruct s; simpl; [reflexivity | discriminate]. Qed.

Lemma split_on_not_nil (sep : ascii) (s : string) : split_on sep s <> [].
Proof.
  induction s as [|a s IH]; simpl; [discriminate|].
  destruct (Ascii.eqb a sep); [discriminate|].
  destruct (split_on sep s); discriminate.
Qed.

(** ** The matcher does what the pattern says *)

Module ReFacts.

Lemma rep_greedy_sound {R} (p : ascii -> bool) (s : string) :
  forall lo hi (k : string -> option R) x,
    rep_greedy p lo hi s k = Some x ->
    exists w s', s = (w ++ s')%string /\ string_forall p w = true /\
                 lo <= String.length w /\ within hi (String.length w) /\
                 k s' = Some x.
Proof.
  induction s as [|a s IH]; intros lo hi k x H; simpl in H.
  - destruct (Nat.eqb_spec lo 0) as [->|]; [|discriminate].
    exists "", "". repeat split; simpl; auto.
    destruct hi; simpl; lia.
  - assert (Stop : (if Nat.eqb lo 0 then k (String a s) else None) = Some x ->
                   exists w s', String a s = (w ++ s')%string /\
                     string_forall p w = true /\ lo <= String.length w /\
                     within hi (String.length w) /\ k s' = Some x).
    { destruct (Nat.eqb_spec lo 0) as [->|]; [|discriminate]. intros Hk.
      exists "", (String a s). repeat split; simpl; auto.
      destruct hi; simpl; lia. }
    destruct (p a) eqn:Hp; simpl in H; [|auto].
    destruct (may_repeat hi) eqn:Hm; [|auto].
    destruct (rep_greedy p (pred lo) (dec hi) s k) as [y|] eqn:Hr; [|auto].
    injection H as ->.
    destruct (IH _ _ _ _ Hr) as (w & s' & -> & Hw & Hlo & Hhi & Hk).
    exists (String a w), s'. simpl. rewrite Hp, Hw.
    repeat split; auto; [lia|].
    destruct hi as [[|h]|]; simpl in *; try discriminate; auto; lia.
Qed.

Theorem run_sound {R} (r : regex) :
  forall s c (k : string -> caps -> option R) x,
    Re.run r s c k = Some x ->
    exists s' c', accepts r s c s' c' /\ k s' c' = Some x.
Proof.
  induction r as [p | p lo hi | r1 IH1 r2 IH2 | r1 IH1 | n r1 IH1];
    intros s c k x H; simpl in H.
  - destruct s as [|a s]; [discriminate|].
    destruct (p a) eqn:Hp; [|discriminate].
    exists s, c. split; [|assumption]. simpl. now exists a.
  - apply rep_greedy_sound in H.
    destruct H as (w & s' & -> & Hw & Hlo & Hhi & Hk).
    exists s', c. split; [|assumption]. simpl. now exists w.
  - apply IH1 in H. destruct H as (s1 & c1 & A1 & H).
    apply IH2 in H. destruct H as (s2 & c2 & A2 & H).
    exists s2, c2. split; [|assumption]. simpl. now exists s1, c1.
  - destruct (Re.run r1 s c k) as [y|] eqn:Hr.
    + injection H as ->. apply IH1 in Hr.
      destruct Hr as (s' & c' & A & Hk).
      exists s', c'. split; [|assumption]. simpl. now left.
    + exists s, c. split; [|assumption]. simpl. now right.
  - apply IH1 in H. destruct H as (s' & c1 & A & Hk).
    exists s', ((n, consumed s s') :: c1). split; [|assumption].
    simpl. now exists c1.
Qed.

Corollary rmatch_sound (r : regex) (s : string) (m : string * caps) :
  rmatch r s = Some m -> accepts r s [] (fst m) (snd m).
Proof.
  unfold rmatch. intros H. apply run_sound in H.
  destruct H as (s' & c' & A & E). now injection E as <-.
Qed.

(** A pattern consumes a prefix of its input. *)
Lemma accepts_prefix (r : regex) :
  forall s c s' c', accepts r s c s' c' -> exists w, s = (w ++ s')%string.
Proof.
  induction r as [p | p lo hi | r1 IH1 r2 IH2 | r1 IH1 | n r1 IH1];
    intros s c s' c' H; simpl in H.
  - destruct H as (a & -> & _). now exists (String a "").
  - destruct H as (w & -> & _). now exists w.
  - destruct H as (s1 & c1 & A1 & A2).
    apply IH1 in A1. apply IH2 in A2.
    destruct A1 as (w1 & ->), A2 as (w2 & ->).
    exists (w1 ++ w2)%string. now rewrite app_assoc_s.
  - destruct H as [A | [-> _]]; [now apply IH1 in A | now exists ""].
  - destruct H as (c1 & A & _). now apply IH1 in A.
Qed.

(** Every element of [findall] is the first group of a match of the
    pattern somewhere in the text. *)
Lemma findall_from_In (r : regex) (s : string) :
  forall skip x,
    In x (findall_from r s skip) ->
    exists t m, rmatch r t = Some m /\
                x = match lookup 1 (snd m) with Some w => w | None => "" end.
Proof.
  induction s as [|a s IH]; intros skip x H; simpl in H.
  - destruct skip; [|contradiction].
    destruct (rmatch r "") as [m|] eqn:E; [|contradiction].
    destruct H as [<-|[]]. now exists "", m.
  - destruct skip as [|n]; [|now apply IH in H].
    destruct (rmatch r (String a s)) as [m|] eqn:E; [|now apply IH in H].
    destruct H as [<-|H]; [now exists (String a s), m | now apply IH in H].
Qed.

End ReFacts.

(** ** The two patterns of the bulk script *)

Lemma consumed_app3 (a b c rest : string) :
  consumed (a ++ b ++ c ++ rest)%string rest = (a ++ b ++ c)%string.
Proof.
  rewrite <- (app_assoc_s b c rest), <- (app_assoc_s a (b ++ c) rest).
  apply consumed_app.
Qed.

(** The group of a county match is [\w+\s?\w+]: it is never empty. *)
Lemma county_group (s s' : string) (c' : caps) :
  accepts county_re s [] s' c' ->
  exists w, lookup 1 c' = Some w /\ w <> "".
Proof.
  unfold county_re, plus. cbn [accepts lit]. intros H. break; subst.
  all: cbn [lookup Nat.eqb]; rewrite consumed_app3.
  all: eexists; split; [reflexivity|].
  all: match goal with
       | L : 1 <= String.length ?w |- (?w ++ _)%string <> "" =>
           destruct w; simpl in *; [lia | discriminate]
       end.
Qed.

Lemma county_matches_nonempty (text x : string) :
  In x (county_matches text) -> x <> "".
Proof.
  unfold county_matches, findall. intros H.
  apply ReFacts.findall_from_In in H. destruct H as (t & m & Hm & ->).
  apply ReFacts.rmatch_sound, county_group in Hm.
  destruct Hm as (w & -> & Hw). exact Hw.
Qed.

(** Groups 5 and 6 of a record line are [\d+]. *)
Lemma line_groups (line : string) (m : string * caps) :
  rmatch line_re line = Some m ->
  exists q z, group 5 m = PyStr q /\ group 6 m = PyStr z /\
              digits q /\ digits z.
Proof.
  intros H. apply ReFacts.rmatch_sound in H. revert H.
  unfold line_re, plus, group. cbn [accepts]. intros H. break; subst.
  destruct m as [rest c]; simpl in *; subst.
  cbn [lookup Nat.eqb]. rewrite !consumed_app.
  do 2 eexists. do 2 (split; [reflexivity|]).
  unfold digits.
  repeat match goal with
         | |- _ /\ _ => split
         | |- string_forall _ _ = true => assumption
         | L : 1 <= String.length ?w |- ?w <> "" =>
             destruct w; simpl in L; [lia | discriminate]
         end.
Qed.

(** ** Grouping-key propagation *)

Lemma next_county_last (cur : option string) (text : string) hs c :
  county_matches text = hs ++ [c] ->
  next_county cur text = Some c /\ c <> "".
Proof.
  intros E. split.
  - unfold next_county. rewrite E.
    destruct hs as [|h hs]; [reflexivity|].
    cbn [app]. f_equal. exact (last_last (h :: hs) c "").
  - apply (county_matches_nonempty text). rewrite E.
    apply in_or_app. right. now left.
Qed.

Lemma county_set_some (c : string) : c <> "" -> county_set (Some c) = Some c.
Proof.
  intros H. unfold county_set.
  destruct (String.eqb_spec c ""); [contradiction | reflexivity].
Qed.

Lemma scan_lines_keyed (c : string) (text : string) :
  c <> "" ->
  flat_map (scan_line (Some c)) (split_on newline text) = keyed_rows c text.
Proof.
  intros H. unfold keyed_rows.
  induction (split_on newline text) as [|l ls IH]; simpl; [reflexivity|].
  rewrite IH. unfold scan_line at 1. rewrite (county_set_some c H).
  reflexivity.
Qed.

Lemma scan_lines_none (ls : list string) : flat_map (scan_line None) ls = [].
Proof.
  induction ls as [|l ls IH]; simpl; [reflexivity|].
  rewrite IH. unfold scan_line. simpl.
  now destruct (rmatch line_re l).
Qed.

Lemma scan_page_header (st : option string * list row) (text : string) hs c :
  county_matches text = hs ++ [c] ->
  scan_page st text = (Some c, snd st ++ keyed_rows c text).
Proof.
  intros E. unfold scan_page.
  destruct (next_county_last (fst st) text hs c E) as [-> Hc].
  now rewrite (scan_lines_keyed c text Hc).
Qed.

Lemma scan_pages_keyed (c : string) (pages : list string) :
  c <> "" -> Forall no_header pages ->
  forall acc, scan_pages pages (Some c, acc)
              = (Some c, acc ++ flat_map (keyed_rows c) pages).
Proof.
  intros Hc HF. induction HF as [|p ps Hp _ IH]; intros acc; simpl.
  - now rewrite app_nil_r.
  - unfold scan_page at 1, next_county. rewrite Hp. simpl.
    rewrite (scan_lines_keyed c p Hc).
    unfold scan_pages in IH. rewrite IH. now rewrite app_assoc.
Qed.

Lemma scan_pages_none (pages : list string) :
  Forall no_header pages ->
  forall acc, scan_pages pages (None, acc) = (None, acc).
Proof.
  intros HF. induction HF as [|p ps Hp _ IH]; intros acc; simpl.
  - reflexivity.
  - unfold scan_page at 1, next_county. rewrite Hp. simpl.
    rewrite scan_lines_none, app_nil_r. apply IH.
Qed.

Lemma keyed_rows_county (c : string) (pages : list string) :
  Forall (fun r => County r = c) (flat_map (keyed_rows c) pages).
Proof.
  apply Forall_forall. intros r H.
  apply in_flat_map in H. destruct H as (p & _ & H).
  unfold keyed_rows in H. apply in_flat_map in H. destruct H as (l & _ & H).
  destruct (rmatch line_re l); [|contradiction].
  destruct H as [<-|[]]. reflexivity.
Qed.

(** C3, as the code has it.  Line strategy, grouping key: when the county
    pattern matches on a page [p], its last match [c] is the county of
    every record line of [p], wherever the line stands on the page, also
    above the header, and of the pages after it, up to the next page with
    a match; this holds whatever came before [p], so a later header
    supersedes an earlier one.  The header is looked for in the whole
    text of the page before its lines are read.  Record lines of pages
    that come before the first page with a header give no row. *)
Theorem C3_grouping_key_propagation :
  forall (before : list string) (p : string) (after : list string)
         (hs : list string) (c : string),
    county_matches p = hs ++ [c] ->
    Forall no_header after ->
    extract (before ++ p :: after)
      = extract before ++ flat_map (keyed_rows c) (p :: after)
    /\ Forall (fun r => County r = c) (flat_map (keyed_rows c) (p :: after))
    /\ (Forall no_header before -> extract before = [])
    /\ (forall line m,
          In line (split_on newline p) -> rmatch line_re line = Some m ->
          In (line_row c m) (extract (before ++ p :: after))).
Proof.
  intros before p after hs c Hp Hafter.
  assert (E : extract (before ++ p :: after)
              = extract before ++ flat_map (keyed_rows c) (p :: after)).
  { unfold extract, scan_pages. rewrite fold_left_app. simpl.
    rewrite (scan_page_header _ p hs c Hp).
    destruct (next_county_last None p hs c Hp) as [_ Hc].
    pose proof (scan_pages_keyed c after Hc Hafter) as K.
    unfold scan_pages in K. rewrite K. simpl. now rewrite app_assoc. }
  split; [exact E|]. split; [|split].
  - apply keyed_rows_county.
  - intros Hb. unfold extract. now rewrite scan_pages_none.
  - intros line m Hl Hm. rewrite E. apply in_or_app. right.
    cbn [flat_map]. apply in_or_app. left.
    unfold keyed_rows. apply in_flat_map. exists line.
    split; [exact Hl|]. rewrite Hm. now left.
Qed.

Lemma C3_counterexample :
  exists r,
    extract ["3/1/2024 KENNEBEC R WATERVILLE BROOK TROUT 300 10

OXFORD County"] = [r]
    /\ County r = "OXFORD"
    /\ QTY r = PyStr "300".
Proof. eexists. split; [vm_compute; reflexivity|]. split; reflexivity. Qed.

Lemma C3_witness :
  let before := ["3/1/2024 MOOSE P NOWHERE BROOK TROUT 40 8"] in
  let p := "ANNUAL REPORT SOMERSET County
3/1/2024 KENNEBEC R WATERVILLE BROOK TROUT 300 10" in
  let after := ["3/2/2024 WESSERUNSETT STR SKOWHEGAN BROWN TROUT 50 12"] in
  extract (before ++ p :: after)
    = extract before ++ flat_map (keyed_rows "SOMERSET") (p :: after)
  /\ Forall (fun r => County r = "SOMERSET")
            (flat_map (keyed_rows "SOMERSET") (p :: after))
  /\ extract before = [].
Proof.
  intros before p after.
  destruct (C3_grouping_key_propagation before p after [] "SOMERSET")
    as (H1 & H2 & H3 & _).
  - vm_compute. reflexivity.
  - repeat constructor.
  - split; [exact H1 | split; [exact H2 | apply H3; repeat constructor]].
Defined.

(** C10.  Greedy field splitting: on the line
    "3/1/2024 KENNEBEC R WATERVILLE BROOK TROUT 300 10" the three text
    groups are "KENNEBEC R WATERVILLE", "BROOK" and "TROUT", not the
    columns "KENNEBEC R", "WATERVILLE" and "BROOK TROUT" of the source
    document. *)
Theorem C10_greedy_field_splitting :
  exists r,
    scan_line (Some "SOMERSET")
              "3/1/2024 KENNEBEC R WATERVILLE BROOK TROUT 300 10" = [r]
    /\ WATER r = PyStr "KENNEBEC R WATERVILLE"
    /\ City_Town r = PyStr "BROOK"
    /\ Species r = PyStr "TROUT"
    /\ WATER r <> PyStr "KENNEBEC R"
    /\ City_Town r <> PyStr "WATERVILLE"
    /\ Species r <> PyStr "BROOK TROUT".
Proof.
  eexists. split; [vm_compute; reflexivity|].
  simpl. repeat split; discriminate.
Qed.

(** ** Table strategy *)

Lemma parse_pages_all (pages : list table) :
  forall acc,
    parse_pages (map Some pages) acc
    = acc ++ flat_map (fun tbl => flat_map row_entries tbl) pages.
Proof.
  induction pages as [|tbl pages IH]; intros acc; simpl.
  - now rewrite app_nil_r.
  - rewrite IH. now rewrite app_assoc.
Qed.

Lemma parse_pages_In (pages : list (option table)) :
  forall acc e,
    In e (parse_pages pages acc) ->
    In e acc \/
    exists tbl r, In (Some tbl) pages /\ In r tbl /\ In e (row_entries r).
Proof.
  induction pages as [|[tbl|] pages IH]; intros acc e H; simpl in H;
    [now left | | now left].
  apply IH in H. destruct H as [H | (tbl' & r & Hp & Hr & He)].
  - apply in_app_or in H. destruct H as [H|H]; [now left|].
    apply in_flat_map in H. destruct H as (r & Hr & He).
    right. exists tbl, r. repeat split; auto. now left.
  - right. exists tbl', r. repeat split; auto. now right.
Qed.

Lemma row_entries_In (r : list pyval) (e : entry) :
  In e (row_entries r) ->
  6 <= List.length r /\
  e = mk_entry (nth 0 r PyNone) (nth 1 r PyNone) (nth 2 r PyNone)
               (nth 3 r PyNone) (nth 4 r PyNone) (nth 5 r PyNone).
Proof.
  unfold row_entries. destruct (Nat.leb_spec 6 (List.length r)) as [L|L].
  - intros [<-|[]]. now split.
  - contradiction.
Qed.

(** C1.  What the code does where one entry per row is expected.  The
    loop [for row in table] runs over the tables of the page, not over
    the rows of a table: a table of a single row gives no entry, however
    many cells the row has, and so does the row of the design document;
    a table of six rows or more gives one entry, and the six fields of
    the entry are the first six rows of the table. *)
Theorem C1_tables_taken_for_rows :
  parse_pdf (Some [Some [[example_row "3/1/2024" "KENNEBEC R" "WATERVILLE"
                                      "BROOK TROUT" "300" "10"]]]) = []
  /\ (forall cells, parse_pdf (Some [Some [[PyList cells]]]) = [])
  /\ (forall r0 r1 r2 r3 r4 r5 rest,
        parse_pdf (Some [Some [r0 :: r1 :: r2 :: r3 :: r4 :: r5 :: rest]])
        = [mk_entry r0 r1 r2 r3 r4 r5])
  /\ (forall pages : list table,
        parse_pdf (Some (map Some pages))
        = flat_map (fun tables => flat_map row_entries tables) pages).
Proof.
  split; [reflexivity|]. split; [reflexivity|]. split; [reflexivity|].
  intros pages. unfold parse_pdf. now rewrite parse_pages_all.
Qed.

(** ** Field typing *)

Lemma C6_counterexample :
  exists r,
    extract ["SOMERSET County
3/1/2024 KENNEBEC R WATERVILLE BROOK TROUT 300 10"] = [r]
    /\ QTY r = PyStr "300" /\ SIZE r = PyStr "10"
    /\ QTY r <> PyInt 300 /\ SIZE r <> PyInt 10
    /\ is_int (QTY r) = false /\ is_int (SIZE r) = false.
Proof.
  eexists. split; [vm_compute; reflexivity|].
  simpl. repeat split; discriminate.
Qed.

Lemma scan_line_In (cur : option string) (line : string) (r : row) :
  In r (scan_line cur line) ->
  exists m c, rmatch line_re line = Some m /\ r = line_row c m.
Proof.
  unfold scan_line. destruct (rmatch line_re line) as [m|]; [|contradiction].
  destruct (county_set cur) as [c|]; [|contradiction].
  intros [<-|[]]. now exists m, c.
Qed.

Lemma scan_pages_In (pages : list string) :
  forall st r,
    In r (snd (scan_pages pages st)) ->
    In r (snd st) \/
    exists line m c, rmatch line_re line = Some m /\ r = line_row c m.
Proof.
  induction pages as [|p pages IH]; intros st r H; simpl in H; [now left|].
  apply IH in H. destruct H as [H|H]; [|now right].
  unfold scan_page in H. simpl in H. apply in_app_or in H.
  destruct H as [H|H]; [now left|].
  apply in_flat_map in H. destruct H as (line & _ & H).
  apply scan_line_In in H. destruct H as (m & c & Hm & ->).
  right. now exists line, m, c.
Qed.

(** C6, as the code has it.  In the line strategy quantity and size are
    kept as text and never converted to integers: every row holds two
    strings, each a non-empty run of decimal digits. *)
Theorem C6_quantity_and_size_are_text :
  forall (pages : list string) (r : row),
    In r (extract pages) ->
    exists q z, QTY r = PyStr q /\ SIZE r = PyStr z /\
                digits q /\ digits z /\
                is_int (QTY r) = false /\ is_int (SIZE r) = false.
Proof.
  intros pages r H. unfold extract in H. apply scan_pages_In in H.
  destruct H as [[] | (line & m & c & Hm & ->)].
  apply line_groups in Hm. destruct Hm as (q & z & Hq & Hz & Dq & Dz).
  exists q, z. cbn [QTY SIZE line_row]. rewrite Hq, Hz. auto 8.
Qed.

Lemma C6_witness :
  exists q z,
    QTY (line_row "SOMERSET"
           ("", [(6, "10"); (5, "300"); (4, "TROUT"); (3, "BROOK");
                 (2, "KENNEBEC R WATERVILLE"); (1, "3/1/2024")])) = PyStr q
    /\ SIZE (line_row "SOMERSET"
           ("", [(6, "10"); (5, "300"); (4, "TROUT"); (3, "BROOK");
                 (2, "KENNEBEC R WATERVILLE"); (1, "3/1/2024")])) = PyStr z
    /\ digits q /\ digits z
    /\ is_int (QTY (line_row "SOMERSET"
           ("", [(6, "10"); (5, "300"); (4, "TROUT"); (3, "BROOK");
                 (2, "KENNEBEC R WATERVILLE"); (1, "3/1/2024")]))) = false
    /\ is_int (SIZE (line_row "SOMERSET"
           ("", [(6, "10"); (5, "300"); (4, "TROUT"); (3, "BROOK");
                 (2, "KENNEBEC R WATERVILLE"); (1, "3/1/2024")]))) = false.
Proof.
  apply (C6_quantity_and_size_are_text
           ["REPORT SOMERSET County
3/1/2024 KENNEBEC R WATERVILLE BROOK TROUT 300 10"]).
  vm_compute. left. reflexivity.
Defined.

(** ** Bulk export *)

Lemma take_length (n : nat) (s : string) : String.length (take n s) <= n.
Proof.
  revert s. induction n as [|n IH]; intros [|a s]; simpl; try lia.
  specialize (IH s). lia.
Qed.

Lemma group_keys_In (df : list row) (k : string) :
  In k (group_keys df) <-> exists r, In r df /\ County r = k.
Proof.
  unfold group_keys. split.
  - intros H.
    apply (Permutation_in _ (Permutation_sym (StringSort.Permuted_sort _))) in H.
    apply nodup_In, in_map_iff in H. destruct H as (r & E & H). now exists r.
  - intros (r & H & E).
    apply (Permutation_in _ (StringSort.Permuted_sort _)).
    apply nodup_In, in_map_iff. now exists r.
Qed.

Lemma group_keys_NoDup (df : list row) : NoDup (group_keys df).
Proof.
  unfold group_keys.
  apply (Permutation_NoDup (StringSort.Permuted_sort _)), NoDup_nodup.
Qed.

Lemma rows_of_not_nil (df : list row) (k : string) :
  In k (group_keys df) -> rows_of k df <> [].
Proof.
  intros H. apply group_keys_In in H. destruct H as (r & H & E).
  assert (I : In r (rows_of k df)).
  { apply filter_In. split; [assumption|]. rewrite E. apply String.eqb_refl. }
  intros N. rewrite N in I. contradiction.
Qed.

(** C8.  Bulk export: no rows is a hard error; otherwise there is one
    sheet per distinct county, each named by the first 31 characters of
    the county and holding the rows of that county in the order of
    extraction, and no sheet is empty. *)
Theorem C8_bulk_grouped_export :
  forall all_data : list row,
    export [] = NoDataExtracted
    /\ (forall pages, extract pages = [] -> bulk_main 200 pages = NoDataExtracted)
    /\ (all_data <> [] ->
        export all_data = Exported (write_sheets all_data)
        /\ write_sheets all_data
           = map (fun county =>
                    mk_sheet (take 31 county)
                      (filter (fun r => String.eqb (County r) county) all_data))
                 (group_keys all_data)
        /\ NoDup (group_keys all_data)
        /\ (forall county, In county (group_keys all_data) <->
                           exists r, In r all_data /\ County r = county)
        /\ Forall (fun sh => sheet_rows sh <> [] /\
                             String.length (sheet_name sh) <= 31)
                  (write_sheets all_data)).
Proof.
  intros all_data. split; [reflexivity|]. split.
  - intros pages E. unfold bulk_main. simpl. now rewrite E.
  - intros NE. split; [|split; [|split; [|split]]].
    + destruct all_data; [contradiction | reflexivity].
    + unfold write_sheets, groupby. rewrite map_map. reflexivity.
    + apply group_keys_NoDup.
    + apply group_keys_In.
    + unfold write_sheets, groupby. rewrite map_map.
      apply Forall_forall. intros sh H. apply in_map_iff in H.
      destruct H as (k & <- & Hk). cbn [sheet_rows sheet_name fst snd]. split.
      * now apply rows_of_not_nil.
      * apply take_length.
Qed.

Lemma C8_witness :
  let a1 := mk_row "A" (PyStr "3/1/2024") (PyStr "X P") (PyStr "T")
                   (PyStr "BROOK TROUT") (PyStr "300") (PyStr "10") in
  let a2 := mk_row "A" (PyStr "3/2/2024") (PyStr "Y P") (PyStr "U")
                   (PyStr "BROWN TROUT") (PyStr "20") (PyStr "12") in
  let b1 := mk_row "B" (PyStr "3/1/2024") (PyStr "Z R") (PyStr "V")
                   (PyStr "SPLAKE") (PyStr "5") (PyStr "9") in
  export [a1; b1; a2]
  = Exported [mk_sheet "A" [a1; a2]; mk_sheet "B" [b1]].
Proof.
  intros a1 a2 b1.
  destruct (C8_bulk_grouped_export [a1; b1; a2]) as (_ & _ & H).
  destruct H as (E & _); [discriminate|].
  rewrite E. vm_compute. reflexivity.
Defined.

(** ** Dispatch *)

Lemma sends_send_all (w : world) (data : list entry) :
  forall n, sends (send_all w n data) = send_results w n data.
Proof.
  unfold send_results.
  induction data as [|e data IH]; intros n; simpl; [reflexivity|].
  now rewrite IH.
Qed.

Lemma send_all_length (w : world) (data : list entry) :
  forall n, List.length (send_all w n data) = List.length data.
Proof.
  induction data as [|e data IH]; intros n; simpl; [reflexivity|].
  now rewrite IH.
Qed.

Lemma sends_bodies (w : world) (data : list entry) :
  forall n, map fst (sends (send_all w n data)) = map message_body data.
Proof.
  induction data as [|e data IH]; intros n; simpl; [reflexivity|].
  now rewrite IH.
Qed.

(** C9.  Dispatch: one send is attempted for every entry, in the order of
    extraction, whatever the outcome of the other sends; with three
    entries, all three sends are attempted even when the second fails. *)
Theorem C9_dispatch_partial_failure :
  forall (w : world) (extracted_data : list entry),
    List.length (send_all w 0 extracted_data) = List.length extracted_data
    /\ map fst (sends (send_all w 0 extracted_data))
       = map message_body extracted_data
    /\ sends (send_all w 0 extracted_data) = send_results w 0 extracted_data
    /\ (forall e1 e2 e3,
          send_all w 0 [e1; e2; e3]
          = [EvSend (message_body e1) (send_ok w 0);
             EvSend (message_body e2) (send_ok w 1);
             EvSend (message_body e3) (send_ok w 2)]).
Proof.
  intros w data. split; [|split; [|split]].
  - apply send_all_length.
  - apply sends_bodies.
  - apply sends_send_all.
  - reflexivity.
Qed.

(** ** Traces *)

Lemma fetches_app (t u : list event) : fetches (t ++ u) = fetches t ++ fetches u.
Proof.
  induction t as [|e t IH]; simpl; [reflexivity|].
  destruct e; simpl; now rewrite IH.
Qed.

Lemma sends_app (t u : list event) : sends (t ++ u) = sends t ++ sends u.
Proof.
  induction t as [|e t IH]; simpl; [reflexivity|].
  destruct e; simpl; now rewrite IH.
Qed.

Lemma writes_app (t u : list event) : writes (t ++ u) = writes t ++ writes u.
Proof.
  induction t as [|e t IH]; simpl; [reflexivity|].
  destruct e; simpl; now rewrite IH.
Qed.

Lemma quiet_sends (t : list event) : quiet t -> sends t = [].
Proof.
  induction 1 as [|e t He _ IH]; simpl; [reflexivity|].
  destruct e; simpl in *; try discriminate; assumption.
Qed.

Lemma quiet_writes (t : list event) : quiet t -> writes t = [].
Proof.
  induction 1 as [|e t He _ IH]; simpl; [reflexivity|].
  destruct e; simpl in *; try discriminate; assumption.
Qed.

Lemma quiet_In (t : list event) (e : event) :
  quiet t -> In e t -> fetch_phase_event e = true.
Proof. intros Q H. exact (proj1 (Forall_forall _ _) Q e H). Qed.


(** ** The fetch phase *)

Section HandlerFacts.
Variable sha256 : list byte -> list byte.

Lemma retry_loop_fetch (w : world) (st : store) (exp : string)
    (pos : nat) (url : string) (left : nat) :
  forall a,
    retry_loop sha256 w st exp pos url left a
    = (fst (retry_fetch w pos url left a),
       option_map (on_fetched sha256 w st exp)
                  (snd (retry_fetch w pos url left a))).
Proof.
  induction left as [|left IH]; intros a; simpl; [reflexivity|].
  destruct (fetched (get_pdf_with_proxy w pos a)); [reflexivity|].
  rewrite IH. now destruct (retry_fetch w pos url left (S a)).
Qed.

(** The loops of the handler make the attempts of [rotate_fetch], then
    handle the document fetched, if any. *)
Lemma proxy_loop_fetch (w : world) (st : store) (exp : string)
    (urls : list string) :
  forall pos,
    proxy_loop sha256 w st exp pos urls
    = match rotate_fetch w pos urls with
      | (t, Some content) => after_events t (on_fetched sha256 w st exp content)
      | (t, None) => mk_run t st AllProxiesFailed
      end.
Proof.
  induction urls as [|url urls IH]; intros pos;
    cbn [proxy_loop rotate_fetch]; [reflexivity|].
  rewrite retry_loop_fetch.
  destruct (retry_fetch w pos url 5 0) as [t [content|]];
    cbn [fst snd option_map]; [reflexivity|].
  rewrite IH.
  destruct (rotate_fetch w (S pos) urls) as [t' [content|]];
    unfold after_events; simpl; [now rewrite app_assoc | reflexivity].
Qed.

Lemma retry_fetch_quiet (w : world) (pos : nat) (url : string) (left : nat) :
  forall a, quiet (fst (retry_fetch w pos url left a)).
Proof.
  induction left as [|left IH]; intros a; simpl; [constructor|].
  destruct (fetched (get_pdf_with_proxy w pos a)).
  - repeat constructor.
  - specialize (IH (S a)).
    destruct (retry_fetch w pos url left (S a)). simpl in *.
    repeat constructor. exact IH.
Qed.

Lemma rotate_fetch_quiet (w : world) (urls : list string) :
  forall pos, quiet (fst (rotate_fetch w pos urls)).
Proof.
  induction urls as [|url urls IH]; intros pos; cbn [rotate_fetch];
    [constructor|].
  pose proof (retry_fetch_quiet w pos url 5 0) as Q.
  destruct (retry_fetch w pos url 5 0) as [t [content|]]; [exact Q|].
  specialize (IH (S pos)).
  destruct (rotate_fetch w (S pos) urls). simpl in *.
  apply Forall_app. now split.
Qed.



(** ** What is done with a fetched document *)

(** The four ways [on_fetched] can go. *)
Lemma on_fetched_cases (w : world) (st : store) (exp : string)
    (content : list byte) :
  let file_hash := file_hash_of sha256 content in
  let body := (file_hash ++ String newline "")%string in
  let r := on_fetched sha256 w st exp content in
  (file_hash = exp /\ r = mk_run [] st NoChange)
  \/ (file_hash <> exp /\ delete_ok w = false /\
      r = mk_run [EvDelete false] st HashWriteError)
  \/ (file_hash <> exp /\ delete_ok w = true /\ put_ok w = false /\
      r = mk_run [EvDelete true; EvPut body false] None HashWriteError)
  \/ (file_hash <> exp /\ delete_ok w = true /\ put_ok w = true /\
      r = mk_run ([EvDelete true; EvPut body true; EvParse]
                    ++ send_all w 0 (parse_pdf (pdf_pages w content)))
                 (Some body) Notified).
Proof.
  intros file_hash body r. unfold r, on_fetched. fold file_hash. fold body.
  destruct (String.eqb_spec file_hash exp) as [E|N]; simpl; [now left|].
  right. destruct (delete_ok w); simpl; [|now left].
  right. destruct (put_ok w); simpl; [now right | now left].
Qed.

Lemma send_all_fetches (w : world) (data : list entry) :
  forall n, fetches (send_all w n data) = [].
Proof. induction data as [|e data IH]; intros n; simpl; auto. Qed.

Lemma on_fetched_fetches (w : world) (st : store) (exp : string)
    (content : list byte) :
  fetches (trace (on_fetched sha256 w st exp content)) = [].
Proof.
  destruct (on_fetched_cases w st exp content)
    as [(_ & ->) | [(_ & _ & ->) | [(_ & _ & _ & ->) | (_ & _ & _ & ->)]]];
    simpl; auto using send_all_fetches.
Qed.

Lemma on_fetched_result (w : world) (st : store) (exp : string)
    (content : list byte) :
  result (on_fetched sha256 w st exp content) <> AllProxiesFailed.
Proof.
  destruct (on_fetched_cases w st exp content)
    as [(_ & ->) | [(_ & _ & ->) | [(_ & _ & _ & ->) | (_ & _ & _ & ->)]]];
    simpl; discriminate.
Qed.



(** ** The handler as a whole *)

(** A run either stays in the fetch phase and leaves the store as it
    was, or handles the first document fetched. *)
Lemma lambda_handler_shape (w : world) (st : store) :
  let r := lambda_handler sha256 w st in
  (quiet (trace r) /\ store_after r = st /\
   (result r = Crashed \/ result r = HashReadError \/
    result r = AllProxiesFailed))
  \/ (exists s t exp content,
        PROXY_URLS w = Some s /\
        read_expected_hash w st = Some exp /\
        rotate_fetch w 0 (split_on comma s) = (t, Some content) /\
        quiet (EvGetHash :: t) /\
        r = after_events (EvGetHash :: t)
              (on_fetched sha256 w st exp content)).
Proof.
  unfold lambda_handler.
  destruct (PROXY_URLS w) as [s|]; [|left; simpl; repeat split; auto; constructor].
  destruct (read_expected_hash w st) as [exp|];
    [|left; simpl; repeat split; auto; repeat constructor].
  rewrite proxy_loop_fetch.
  pose proof (rotate_fetch_quiet w (split_on comma s) 0) as Q.
  destruct (rotate_fetch w 0 (split_on comma s)) as [t [content|]] eqn:E;
    cbn [fst] in Q.
  - right. exists s, t, exp, content. repeat split; auto.
    constructor; [reflexivity | exact Q].
  - left. simpl. repeat split; auto. constructor; [reflexivity | exact Q].
Qed.

Lemma send_all_In (w : world) (data : list entry) (e : event) :
  forall n, In e (send_all w n data) -> exists body ok, e = EvSend body ok.
Proof.
  induction data as [|x data IH]; intros n H; simpl in H; [contradiction|].
  destruct H as [<-|H]; [now do 2 eexists | now apply IH in H].
Qed.



(** ** The hash written is the hash read back *)

Lemma hash_char_plain (a : ascii) :
  hash_char a = true -> is_space a = false /\ upper_char a = a.
Proof.
  destruct a as [[] [] [] [] [] [] [] []]; vm_compute;
    intros H; try discriminate H; split; reflexivity.
Qed.

Lemma hex_digit_upper (d : nat) :
  d < 16 -> hash_char (upper_char (hex_digit d)) = true.
Proof.
  intros L. do 16 (destruct d as [|d]; [reflexivity|]). lia.
Qed.

Lemma upper_hex (bs : list byte) :
  string_forall hash_char (upper (hex bs)) = true.
Proof.
  induction bs as [|b bs IH]; [reflexivity|].
  pose proof (Byte.to_nat_bounded b) as B.
  cbn [hex upper string_forall]. rewrite IH.
  rewrite !hex_digit_upper; [reflexivity | |].
  - apply Nat.mod_upper_bound. lia.
  - apply Nat.Div0.div_lt_upper_bound. lia.
Qed.

Lemma upper_plain (s : string) :
  string_forall hash_char s = true -> upper s = s.
Proof.
  induction s as [|a s IH]; simpl; [reflexivity|].
  intros H. apply andb_prop in H. destruct H as [Ha Hs].
  rewrite (IH Hs). now destruct (hash_char_plain a Ha) as [_ ->].
Qed.

Lemma rstrip_line (s : string) :
  string_forall hash_char s = true ->
  rstrip (s ++ String newline "")%string = s.
Proof.
  induction s as [|a s IH]; [reflexivity|].
  intros H. cbn [string_forall] in H. apply andb_prop in H.
  destruct H as [Ha Hs]. cbn [append rstrip]. rewrite (IH Hs).
  destruct (hash_char_plain a Ha) as [-> _]. now destruct s.
Qed.

Lemma strip_line (s : string) :
  string_forall hash_char s = true ->
  strip (s ++ String newline "")%string = s.
Proof.
  intros H. unfold strip. destruct s as [|a s]; [reflexivity|].
  assert (Ha : is_space a = false).
  { cbn [string_forall] in H. apply andb_prop in H.
    now destruct (hash_char_plain a (proj1 H)). }
  cbn [append lstrip]. rewrite Ha.
  exact (rstrip_line (String a s) H).
Qed.

(** What [read_expected_hash] makes of the object that [on_fetched]
    writes. *)
Lemma read_back (w : world) (content : list byte) :
  hash_get_ok w = true ->
  read_expected_hash w
    (Some (file_hash_of sha256 content ++ String newline "")%string)
  = Some (file_hash_of sha256 content).
Proof.
  intros G. unfold read_expected_hash. rewrite G. cbn [option_map].
  unfold file_hash_of.
  rewrite (strip_line _ (upper_hex _)), (upper_plain _ (upper_hex _)).
  reflexivity.
Qed.

(** C5.  Idempotence of change detection: when a run of the handler
    detects a change and commits the new hash, the next run, against
    the store as the first one left it and the same document, reads
    back that very hash, reports no change and writes nothing; and
    whenever the hash of the document equals the expected one, the
    outcome is no change and nothing at all is done to the store. *)
Theorem C5_change_detector_idempotent :
  forall (w : world) (st : store),
    let r1 := lambda_handler sha256 w st in
    let r2 := lambda_handler sha256 w (store_after r1) in
    (result r1 = Notified ->
     (exists content,
         store_after r1
         = Some (file_hash_of sha256 content ++ String newline "")%string
         /\ read_expected_hash w (store_after r1)
            = Some (file_hash_of sha256 content)
         /\ read_expected_hash w st <> Some (file_hash_of sha256 content))
     /\ result r2 = NoChange
     /\ writes (trace r2) = []
     /\ store_after r2 = store_after r1)
    /\ (forall exp content,
           file_hash_of sha256 content = exp ->
           on_fetched sha256 w st exp content = mk_run [] st NoChange)
    /\ (forall exp content,
           file_hash_of sha256 content <> exp ->
           delete_ok w = true -> put_ok w = true ->
           result (on_fetched sha256 w st exp content) = Notified
           /\ store_after (on_fetched sha256 w st exp content)
              = Some (file_hash_of sha256 content ++ String newline "")%string).
Proof.
  intros w st r1 r2. split; [|split].
  - intros N.
    destruct (lambda_handler_shape w st)
      as [(_ & _ & [C | [C | C]])
         | (s & t & exp & content & Hs & Hx & Hf & Q & R)];
      fold r1 in C || fold r1 in R; try congruence.
    assert (G : hash_get_ok w = true).
    { unfold read_expected_hash in Hx. now destruct (hash_get_ok w). }
    rewrite R in N. unfold after_events in N. cbn [result] in N.
    destruct (on_fetched_cases w st exp content)
      as [(_ & C) | [(_ & _ & C) | [(_ & _ & _ & C) | (D & _ & _ & C)]]];
      rewrite C in N; try discriminate N.
    assert (S1 : store_after r1
                 = Some (file_hash_of sha256 content
                           ++ String newline "")%string).
    { rewrite R. unfold after_events. cbn [store_after]. now rewrite C. }
    split.
    + exists content. rewrite S1. repeat split; auto.
      * now apply read_back.
      * rewrite Hx. congruence.
    + unfold r2. rewrite S1. unfold lambda_handler.
      rewrite Hs, (read_back w content G), proxy_loop_fetch, Hf.
      unfold after_events, on_fetched. rewrite String.eqb_refl.
      cbn [negb trace result store_after]. rewrite app_nil_r.
      repeat split; auto.
      apply (quiet_writes (EvGetHash :: t) Q).
  - intros exp content E. unfold on_fetched.
    rewrite E, String.eqb_refl. reflexivity.
  - intros exp content N D P.
    destruct (on_fetched_cases w st exp content)
      as [(E & C) | [(_ & D' & C) | [(_ & _ & P' & C) | (_ & _ & _ & C)]]];
      try congruence.
    rewrite C. now split.
Qed.

(** ** The empty proxy list *)

End HandlerFacts.

(** ** The properties on example worlds *)



Lemma C5_witness :
  let w := example_world (Some "http://p1:8080,http://p2:8080")
                         second_proxy_answers true true in
  let r1 := lambda_handler toy_digest w (Some "old") in
  let r2 := lambda_handler toy_digest w (store_after r1) in
  result r1 = Notified /\ result r2 = NoChange /\ writes (trace r2) = []
  /\ store_after r2 = store_after r1.
Proof.
  intros w r1 r2.
  assert (N : result r1 = Notified) by (vm_compute; reflexivity).
  split; [exact N|].
  exact (proj2 (proj1 (C5_change_detector_idempotent toy_digest w (Some "old")) N)).
Defined.



(* ================================================================= *)
(** * Further properties of the two programs *)

(** ** The matcher finds a match whenever the pattern has one *)

Module ReComplete.

Lemma rep_greedy_complete {R} (p : ascii -> bool) (w : string) :
  forall lo hi s' (k : string -> option R) x,
    string_forall p w = true -> lo <= String.length w ->
    within hi (String.length w) -> k s' = Some x ->
    exists y, rep_greedy p lo hi (w ++ s')%string k = Some y.
Proof.
  induction w as [|a w IH]; intros lo hi s' k x Hw Hlo Hhi Hk.
  - simpl in Hlo. assert (lo = 0) as -> by lia. cbn [append].
    destruct s' as [|b s']; simpl; [now exists x|].
    destruct (p b && may_repeat hi); [|now exists x].
    destruct (rep_greedy p 0 (dec hi) s' k) as [y|]; [now exists y|now exists x].
  - cbn [string_forall] in Hw. apply andb_prop in Hw. destruct Hw as [Ha Hw].
    cbn [append rep_greedy]. rewrite Ha.
    assert (M : may_repeat hi = true).
    { destruct hi as [[|h]|]; simpl in *; auto; lia. }
    rewrite M. cbn [andb].
    destruct (IH (pred lo) (dec hi) s' k x Hw) as (y & ->); auto.
    + simpl in Hlo. lia.
    + destruct hi as [h|]; simpl in *; auto; lia.
    + now exists y.
Qed.

Theorem run_complete {R} (r : regex) :
  forall s c s' c' (k : string -> caps -> option R) x,
    accepts r s c s' c' -> k s' c' = Some x ->
    exists y, Re.run r s c k = Some y.
Proof.
  induction r as [p | p lo hi | r1 IH1 r2 IH2 | r1 IH1 | n r1 IH1];
    intros s c s' c' k x A Hk; simpl in A.
  - destruct A as (a & -> & Hp & ->). simpl. rewrite Hp. now exists x.
  - destruct A as (w & -> & Hw & Hlo & Hhi & ->). simpl.
    now apply (rep_greedy_complete p w lo hi s' _ x).
  - destruct A as (s1 & c1 & A1 & A2).
    destruct (IH2 _ _ _ _ k x A2 Hk) as (y & Hy).
    simpl. now apply (IH1 _ _ _ _ _ y A1).
  - simpl. destruct A as [A | [-> ->]].
    + destruct (IH1 _ _ _ _ k x A Hk) as (y & ->). now exists y.
    + destruct (Re.run r1 s c k) as [y|]; [now exists y | now exists x].
  - destruct A as (c1 & A & ->). simpl.
    now apply (IH1 _ _ _ _ _ x A).
Qed.

Corollary rmatch_complete (r : regex) (s s' : string) (c' : caps) :
  accepts r s [] s' c' -> exists m, rmatch r s = Some m.
Proof. intros A. unfold rmatch. now apply (run_complete r _ _ _ _ _ (s', c') A). Qed.

Lemma accepts_rep (p : ascii -> bool) (lo : nat) (hi : option nat)
    (w s' : string) (c : caps) :
  string_forall p w = true -> lo <= String.length w ->
  within hi (String.length w) ->
  accepts (Rep p lo hi) (w ++ s')%string c s' c.
Proof. intros. simpl. now exists w. Qed.

Lemma accepts_plus (p : ascii -> bool) (w s' : string) (c : caps) :
  run_of p w -> accepts (plus p) (w ++ s')%string c s' c.
Proof.
  intros [N F]. apply accepts_rep; simpl; auto.
  destruct w; [contradiction | simpl; lia].
Qed.

Lemma accepts_char (a : ascii) (s' : string) (c : caps) :
  accepts (Cls (is_char a)) (String a s') c s' c.
Proof. simpl. exists a. repeat split. apply Ascii.eqb_refl. Qed.

Lemma accepts_seq (r1 r2 : regex) s c s1 c1 s' c' :
  accepts r1 s c s1 c1 -> accepts r2 s1 c1 s' c' ->
  accepts (Seq r1 r2) s c s' c'.
Proof. intros. simpl. now exists s1, c1. Qed.

Lemma accepts_grp (n : nat) (r : regex) s c s' c1 :
  accepts r s c s' c1 -> accepts (Grp n r) s c s' ((n, consumed s s') :: c1).
Proof. intros. simpl. now exists c1. Qed.

End ReComplete.

(** ** What the two patterns accept *)

Lemma run_of_intro (p : ascii -> bool) (w : string) :
  1 <= String.length w -> string_forall p w = true -> run_of p w.
Proof.
  intros L F. split; [|exact F]. destruct w; simpl in L; [lia | discriminate].
Qed.

Lemma run_of_length (p : ascii -> bool) (w : string) :
  run_of p w -> 1 <= String.length w.
Proof. intros [N _]. destruct w; [contradiction | simpl; lia]. Qed.

Lemma consumed_date (d1 : string) (c1 : ascii) (d2 : string) (c2 : ascii)
    (d3 rest : string) :
  consumed (d1 ++ String c1 (d2 ++ String c2 (d3 ++ rest)))%string rest
  = (d1 ++ String c1 (d2 ++ String c2 d3))%string.
Proof.
  replace (d1 ++ String c1 (d2 ++ String c2 (d3 ++ rest)))%string
    with ((d1 ++ String c1 (d2 ++ String c2 d3)) ++ rest)%string.
  - apply consumed_app.
  - rewrite app_assoc_s. cbn [append]. rewrite app_assoc_s. reflexivity.
Qed.

(** The pieces of a matched line, and the groups as the matcher leaves
    them. *)
Lemma line_re_pieces (line : string) (m : string * caps) :
  rmatch line_re line = Some m ->
  exists x, pieces_ok x /\ line = pieces_text x (fst m) /\
            snd m = [(6, p_size x); (5, p_qty x); (4, p_species x);
                     (3, p_town x); (2, p_water x); (1, pieces_date x)].
Proof.
  intros H. apply ReFacts.rmatch_sound in H. revert H.
  unfold line_re, plus. cbn [accepts]. intros H. break.
  destruct m as [rest c]. cbn [fst snd] in *. subst.
  repeat match goal with
         | H : is_char _ _ = true |- _ => apply Ascii.eqb_eq in H; subst
         end.
  match goal with
  | |- exists x, _ /\
         (?d1 ++ String _ (?d2 ++ String _ (?d3 ++ ?s1 ++ ?f2 ++ ?s2 ++ ?f3 ++
            ?s3 ++ ?f4 ++ ?s4 ++ ?q ++ ?s5 ++ ?z ++ _)))%string = _ /\ _ =>
      exists (mk_pieces d1 d2 d3 s1 f2 s2 f3 s3 f4 s4 q s5 z)
  end.
  split; [|split].
  - unfold pieces_ok.
    cbn [p_month p_day p_year p_s1 p_water p_s2 p_town p_s3
         p_species p_s4 p_qty p_s5 p_size].
    simpl within in *.
    repeat match goal with
           | |- _ /\ _ => split
           | |- run_of _ _ => apply run_of_intro; assumption
           | |- string_forall _ _ = true => assumption
           | |- _ <= _ => assumption
           | |- _ = 4 => lia
           end.
  - reflexivity.
  - unfold pieces_date.
    cbn [p_month p_day p_year p_water p_town p_species p_qty p_size].
    rewrite !consumed_app.
    match goal with
    | |- context [consumed (?d1 ++ String ?a (?d2 ++ String ?b (?d3 ++ ?r))) ?r] =>
        rewrite (consumed_date d1 a d2 b d3 r)
    end.
    reflexivity.
Qed.

(** X1.  Verbatim capture: when a line matches the record pattern, the
    line is a date, three text fields, a quantity and a size separated by
    whitespace, followed by the unmatched rest, and the row holds exactly
    these pieces of the line, unchanged. *)
Theorem line_re_verbatim :
  forall (line : string) (m : string * caps),
    rmatch line_re line = Some m ->
    exists x, pieces_ok x /\ line = pieces_text x (fst m) /\
              forall c, line_row c m = pieces_row c x.
Proof.
  intros line m H. apply line_re_pieces in H.
  destruct H as (x & Ok & E & G). exists x. split; [exact Ok|].
  split; [exact E|]. intros c.
  unfold line_row, pieces_row, group. rewrite G.
  cbn [lookup Nat.eqb]. reflexivity.
Qed.

Lemma line_re_verbatim_witness :
  exists x,
    pieces_ok x
    /\ "3/1/2024 KENNEBEC R WATERVILLE BROOK TROUT 300 10 inches"
       = pieces_text x " inches"
    /\ forall c,
         line_row c (" inches",
                     [(6, "10"); (5, "300"); (4, "TROUT"); (3, "BROOK");
                      (2, "KENNEBEC R WATERVILLE"); (1, "3/1/2024")])
         = pieces_row c x.
Proof.
  apply (line_re_verbatim
           "3/1/2024 KENNEBEC R WATERVILLE BROOK TROUT 300 10 inches"
           (" inches",
            [(6, "10"); (5, "300"); (4, "TROUT"); (3, "BROOK");
             (2, "KENNEBEC R WATERVILLE"); (1, "3/1/2024")])).
  vm_compute. reflexivity.
Defined.

(** X2.  A line is a record line exactly when it starts with a date of
    one or two digits, one or two digits and four digits, then three
    non-empty fields of letters and whitespace, then two numbers, all
    separated by whitespace: the backtracking never misses a line of that
    shape, and nothing else matches. *)
Theorem line_re_matches :
  forall line : string,
    (exists m, rmatch line_re line = Some m) <->
    (exists x rest, pieces_ok x /\ line = pieces_text x rest).
Proof.
  intros line. split.
  - intros (m & H). apply line_re_pieces in H.
    destruct H as (x & Ok & E & _). now exists x, (fst m).
  - intros (x & rest & Ok & ->).
    unfold pieces_ok in Ok. break.
    eapply ReComplete.rmatch_complete. unfold line_re, pieces_text.
    repeat match goal with
           | |- accepts (Seq _ _) _ _ _ _ => eapply ReComplete.accepts_seq
           | |- accepts (Grp _ _) _ _ _ _ => eapply ReComplete.accepts_grp
           | |- accepts (plus _) _ _ _ _ =>
               eapply ReComplete.accepts_plus; eassumption
           | |- accepts (Cls (is_char _)) _ _ _ _ =>
               eapply ReComplete.accepts_char
           | |- accepts (Rep _ _ _) _ _ _ _ => eapply ReComplete.accepts_rep
           end.
    all: simpl within; auto.
    all: try (eapply run_of_length; eassumption).
    all: try (match goal with
              | H : run_of _ ?w |- string_forall _ ?w = true => exact (proj2 H)
              end).
    all: try lia.
Qed.

(** X3.  A county key is one or two words: word characters, at most one
    whitespace character, word characters; so it has at least two
    characters, and of a longer name only the last two words are kept. *)
Theorem county_key_shape :
  forall (text c : string),
    In c (county_matches text) ->
    exists w1 sp w2,
      c = (w1 ++ sp ++ w2)%string /\
      run_of is_word w1 /\ run_of is_word w2 /\
      string_forall is_space sp = true /\ String.length sp <= 1 /\
      2 <= String.length c.
Proof.
  intros text c H. unfold county_matches, findall in H.
  apply ReFacts.findall_from_In in H. destruct H as (t & m & Hm & ->).
  apply ReFacts.rmatch_sound in Hm. revert Hm.
  unfold county_re, plus. cbn [accepts lit]. intros H. break; subst.
  all: match goal with
       | E : snd _ = _ |- _ => rewrite E
       end; cbn [lookup Nat.eqb]; rewrite consumed_app3.
  all: match goal with
       | |- exists w1 sp w2, (?a ++ ?b ++ ?c)%string = _ /\ _ =>
           exists a, b, c
       end.
  all: simpl within in *.
  all: repeat split; auto;
         try (apply run_of_intro; assumption);
         try (match goal with
              | L : 1 <= String.length ?w |- ?w <> "" =>
                  destruct w; simpl in L; [lia | discriminate]
              end).
  all: rewrite !string_length_app; lia.
Qed.

Lemma county_key_shape_witness :
  exists w1 sp w2,
    "New Foo" = (w1 ++ sp ++ w2)%string /\
    run_of is_word w1 /\ run_of is_word w2 /\
    string_forall is_space sp = true /\ String.length sp <= 1 /\
    2 <= String.length "New Foo".
Proof.
  apply (county_key_shape "STOCKING REPORT The Great New Foo County").
  vm_compute. left. reflexivity.
Defined.

(** ** Where the county of a row comes from *)

Lemma next_county_cases (cur : option string) (text : string) :
  (county_matches text = [] /\ next_county cur text = cur)
  \/ (exists hs c, county_matches text = hs ++ [c] /\
                   next_county cur text = Some c).
Proof.
  destruct (county_matches text) as [|h l] eqn:E.
  - left. unfold next_county. now rewrite E.
  - right. destruct (exists_last (l := h :: l)) as (hs & c & E');
      [discriminate|].
    exists hs, c. rewrite <- E'. split; [reflexivity|].
    apply (next_county_last cur text hs c). now rewrite E.
Qed.

(** The county in force and the county of every row are the last match
    of one of the pages read. *)
Lemma scan_pages_provenance (all : list string) (pages : list string) :
  forall st,
    incl pages all ->
    let ok c := exists p hs, In p all /\ county_matches p = hs ++ [c] in
    (forall c, fst st = Some c -> ok c) ->
    Forall (fun r => ok (County r)) (snd st) ->
    (forall c, fst (scan_pages pages st) = Some c -> ok c)
    /\ Forall (fun r => ok (County r)) (snd (scan_pages pages st)).
Proof.
  induction pages as [|p pages IH]; intros st I ok Hc Hr; [now split|].
  cbn [scan_pages fold_left]. apply IH.
  - intros x Hx. apply I. now right.
  - unfold scan_page. cbn [fst]. intros c E.
    destruct (next_county_cases (fst st) p) as [(_ & N) | (hs & c' & M & N)];
      rewrite N in E.
    + now apply Hc.
    + injection E as <-. exists p, hs. split; [apply I; now left | exact M].
  - unfold scan_page. cbn [snd]. apply Forall_app. split; [exact Hr|].
    apply Forall_forall. intros r H. apply in_flat_map in H.
    destruct H as (line & _ & H). unfold scan_line in H.
    destruct (rmatch line_re line) as [m|]; [|contradiction].
    destruct (next_county (fst st) p) as [c|] eqn:E; [|contradiction].
    simpl in H. destruct (String.eqb c ""); [contradiction|].
    destruct H as [<-|[]]. cbn [County line_row].
    destruct (next_county_cases (fst st) p) as [(_ & N) | (hs & c' & M & N)];
      rewrite N in E.
    + now apply Hc.
    + injection E as <-. exists p, hs. split; [apply I; now left | exact M].
Qed.

Lemma extract_rows_keyed (pages : list string) (r : row) :
  In r (extract pages) ->
  exists p hs, In p pages /\ county_matches p = hs ++ [County r].
Proof.
  intros H.
  destruct (scan_pages_provenance pages pages (None, [])) as [_ F].
  - apply incl_refl.
  - discriminate.
  - constructor.
  - fold (extract pages) in F.
    exact (proj1 (Forall_forall _ _) F r H).
Qed.

Lemma last_match_not_empty (p : string) (hs : list string) (c : string) :
  county_matches p = hs ++ [c] -> c <> "".
Proof.
  intros E. apply (county_matches_nonempty p). rewrite E.
  apply in_or_app. right. now left.
Qed.

(** X4.  Every extracted row carries a county that is the last county
    match of some page of the document, and that is not empty. *)
Theorem extract_county_provenance :
  forall (pages : list string) (r : row),
    In r (extract pages) ->
    County r <> "" /\
    exists p hs, In p pages /\ county_matches p = hs ++ [County r].
Proof.
  intros pages r H. apply extract_rows_keyed in H.
  destruct H as (p & hs & Hp & E).
  split; [now apply (last_match_not_empty p hs) | now exists p, hs].
Qed.

Lemma extract_county_provenance_witness :
  let pages := ["SOMERSET County
3/1/2024 KENNEBEC R WATERVILLE BROOK TROUT 300 10"] in
  let r := mk_row "SOMERSET" (PyStr "3/1/2024")
                  (PyStr "KENNEBEC R WATERVILLE") (PyStr "BROOK")
                  (PyStr "TROUT") (PyStr "300") (PyStr "10") in
  County r <> "" /\
  exists p hs, In p pages /\ county_matches p = hs ++ [County r].
Proof.
  intros pages r. apply (extract_county_provenance pages r).
  vm_compute. left. reflexivity.
Defined.

(** ** The outcomes of the bulk script *)

Lemma take_not_empty (n : nat) (s : string) :
  0 < n -> s <> "" -> take n s <> "".
Proof.
  intros L N. destruct n; [lia|]. destruct s; [contradiction|]. discriminate.
Qed.

(** X5.  The errors of the bulk script.  A response with a status other
    than 200 raises at line 13.  A document none of whose pages has a
    county header raises "No data extracted" at line 56, whatever record
    lines it has.  The second error, "No valid data to write to Excel" of
    line 71, is never raised: when line 64 is reached the frame has rows.
    And when the loop of lines 66-69 is reached there is at least one
    call of [to_excel] to make, each with a non-empty sheet name and at
    least one row. *)
Theorem bulk_main_outcomes :
  forall (status_code : Z) (pages : list string),
    bulk_main status_code pages <> NoValidData
    /\ (status_code <> 200%Z ->
        bulk_main status_code pages = FetchFailed status_code)
    /\ (status_code = 200%Z -> Forall no_header pages ->
        bulk_main status_code pages = NoDataExtracted)
    /\ (forall sheets,
          bulk_main status_code pages = Exported sheets ->
          status_code = 200%Z /\ sheets <> [] /\
          sheets = write_sheets (extract pages) /\
          Forall (fun sh => sheet_name sh <> "" /\ sheet_rows sh <> [])
                 sheets).
Proof.
  intros status pages. unfold bulk_main.
  destruct (Z.eqb_spec status 200) as [->|N]; cbn [negb].
  - split; [|split; [|split]].
    + unfold export. destruct (extract pages); discriminate.
    + congruence.
    + intros _ F. unfold extract. now rewrite scan_pages_none.
    + intros sheets E. unfold export in E.
      destruct (extract pages) as [|r rs] eqn:X; [discriminate|].
      cbn [List.length Nat.eqb negb] in E. injection E as <-.
      split; [reflexivity|].
      assert (K : forall k, In k (group_keys (r :: rs)) ->
                            k <> "" /\ rows_of k (r :: rs) <> []).
      { intros k Hk. split; [|now apply rows_of_not_nil].
        apply group_keys_In in Hk. destruct Hk as (r' & Hr & <-).
        rewrite <- X in Hr. apply extract_rows_keyed in Hr.
        destruct Hr as (p & hs & _ & E).
        now apply (last_match_not_empty p hs). }
      split; [|split; [reflexivity|]].
      * unfold write_sheets, groupby. rewrite map_map.
        assert (Hk : In (County r) (group_keys (r :: rs))).
        { apply group_keys_In. exists r. split; [now left | reflexivity]. }
        destruct (group_keys (r :: rs)); [contradiction | discriminate].
      * unfold write_sheets, groupby. rewrite map_map.
        apply Forall_forall. intros sh H. apply in_map_iff in H.
        destruct H as (k & <- & Hk). cbn [sheet_name sheet_rows fst snd].
        destruct (K k Hk) as [Nk Nr]. split; [|exact Nr].
        apply take_not_empty; [lia | exact Nk].
  - split; [discriminate|]. split; [reflexivity|].
    split; [congruence | discriminate].
Qed.

Lemma bulk_main_outcomes_witness :
  bulk_main 404 ["SOMERSET County"] = FetchFailed 404
  /\ bulk_main 200 ["3/1/2024 KENNEBEC R WATERVILLE BROOK TROUT 300 10"]
     = NoDataExtracted.
Proof.
  split.
  - apply (proj1 (proj2 (bulk_main_outcomes 404 ["SOMERSET County"]))).
    discriminate.
  - apply (proj1 (proj2 (proj2 (bulk_main_outcomes 200
             ["3/1/2024 KENNEBEC R WATERVILLE BROOK TROUT 300 10"])))).
    + reflexivity.
    + repeat constructor.
Defined.

(** ** The sheets partition the rows *)

Lemma rows_of_nil_keys (ks : list string) :
  flat_map (fun k => rows_of k []) ks = [].
Proof. induction ks as [|k ks IH]; simpl; auto. Qed.

Lemma rows_of_other (r : row) (df : list row) (ks : list string) :
  ~ In (County r) ks ->
  flat_map (fun k => rows_of k (r :: df)) ks
  = flat_map (fun k => rows_of k df) ks.
Proof.
  induction ks as [|k ks IH]; intros N; cbn [flat_map]; [reflexivity|].
  rewrite IH by (intros I; apply N; now right).
  unfold rows_of at 1. cbn [filter].
  destruct (String.eqb_spec (County r) k) as [E|_]; [|reflexivity].
  exfalso. apply N. now left.
Qed.

Lemma rows_of_partition (df : list row) :
  forall ks, NoDup ks -> (forall r, In r df -> In (County r) ks) ->
             Permutation (flat_map (fun k => rows_of k df) ks) df.
Proof.
  induction df as [|r df IH]; intros ks ND Cov.
  - rewrite rows_of_nil_keys. constructor.
  - destruct (in_split (County r) ks) as (k1 & k2 & ->);
      [apply Cov; now left|].
    pose proof (NoDup_remove_2 _ _ _ ND) as NI.
    rewrite flat_map_app. cbn [flat_map].
    rewrite !rows_of_other
      by (intros I; apply NI; apply in_or_app; auto).
    unfold rows_of at 2. cbn [filter]. rewrite String.eqb_refl.
    fold (rows_of (County r) df).
    apply Permutation_sym. cbn [app]. apply Permutation_cons_app.
    apply Permutation_sym.
    specialize (IH (k1 ++ County r :: k2) ND).
    rewrite flat_map_app in IH. cbn [flat_map] in IH. apply IH.
    intros r' I. apply Cov. now right.
Qed.

Lemma take_all (n : nat) (s : string) : String.length s <= n -> take n s = s.
Proof.
  revert s. induction n as [|n IH]; intros [|a s] L; simpl in *;
    try reflexivity; [lia|].
  rewrite IH; [reflexivity | lia].
Qed.

(** X6.  When no county is longer than 31 characters, the calls of
    [to_excel] have different sheet names and carry every extracted row
    exactly once: the rows of all the calls together are the extracted
    rows, and every row is in the call named by its county. *)
Theorem export_partition :
  forall df : list row,
    Forall (fun r => String.length (County r) <= 31) df ->
    Permutation (flat_map sheet_rows (write_sheets df)) df
    /\ NoDup (map sheet_name (write_sheets df))
    /\ Forall (fun sh =>
                 Forall (fun r => County r = sheet_name sh) (sheet_rows sh))
              (write_sheets df).
Proof.
  intros df F.
  assert (K : forall k, In k (group_keys df) -> take 31 k = k).
  { intros k Hk. apply take_all. apply group_keys_In in Hk.
    destruct Hk as (r & Hr & <-). exact (proj1 (Forall_forall _ _) F r Hr). }
  split; [|split].
  - unfold write_sheets, groupby. rewrite map_map.
    rewrite flat_map_concat_map, map_map. cbn [sheet_rows snd].
    rewrite <- flat_map_concat_map.
    apply rows_of_partition; [apply group_keys_NoDup|].
    intros r H. apply group_keys_In. now exists r.
  - assert (E : map sheet_name (write_sheets df) = group_keys df).
    { unfold write_sheets, groupby. rewrite !map_map. cbn [sheet_name fst].
      rewrite <- (map_id (group_keys df)) at 2.
      apply map_ext_in. exact K. }
    rewrite E. apply group_keys_NoDup.
  - unfold write_sheets, groupby. rewrite map_map.
    apply Forall_forall. intros sh H. apply in_map_iff in H.
    destruct H as (k & <- & Hk). cbn [sheet_name sheet_rows fst snd].
    rewrite (K k Hk).
    apply Forall_forall. intros r Hr. apply filter_In in Hr.
    destruct Hr as [_ E]. now apply String.eqb_eq in E.
Qed.

Lemma export_partition_witness :
  let b := mk_row "YORK" (PyStr "3/1/2024") (PyStr "X P") (PyStr "T")
                  (PyStr "SPLAKE") (PyStr "5") (PyStr "9") in
  let a := mk_row "ANDROSCOGGIN" (PyStr "3/2/2024") (PyStr "Y P") (PyStr "U")
                  (PyStr "BROWN TROUT") (PyStr "20") (PyStr "12") in
  Permutation (flat_map sheet_rows (write_sheets [b; a; b])) [b; a; b]
  /\ NoDup (map sheet_name (write_sheets [b; a; b]))
  /\ Forall (fun sh =>
               Forall (fun r => County r = sheet_name sh) (sheet_rows sh))
            (write_sheets [b; a; b]).
Proof.
  intros b a. apply (export_partition [b; a; b]).
  repeat constructor; simpl; lia.
Defined.

(** X7.  When no county is longer than 31 characters, the sheet names are
    the counties themselves, each once, in ascending order of the
    characters: the order of the sheets is not the order of the
    document. *)
Theorem sheet_names_sorted_unique :
  forall df : list row,
    Forall (fun r => String.length (County r) <= 31) df ->
    let names := map sheet_name (write_sheets df) in
    names = group_keys df
    /\ NoDup names
    /\ Sorted (fun a b => String.leb a b = true) names.
Proof.
  intros df F names.
  assert (E : names = group_keys df).
  { unfold names, write_sheets, groupby. rewrite !map_map.
    cbn [sheet_name fst]. rewrite <- (map_id (group_keys df)) at 2.
    apply map_ext_in. intros k Hk. apply take_all.
    apply group_keys_In in Hk. destruct Hk as (r & Hr & <-).
    exact (proj1 (Forall_forall _ _) F r Hr). }
  rewrite E. split; [reflexivity|]. split; [apply group_keys_NoDup|].
  unfold group_keys. apply StringSort.Sorted_sort.
Qed.

Lemma sheet_names_sorted_unique_witness :
  let b := mk_row "YORK" (PyStr "3/1/2024") (PyStr "X P") (PyStr "T")
                  (PyStr "SPLAKE") (PyStr "5") (PyStr "9") in
  let a := mk_row "ANDROSCOGGIN" (PyStr "3/2/2024") (PyStr "Y P") (PyStr "U")
                  (PyStr "BROWN TROUT") (PyStr "20") (PyStr "12") in
  map sheet_name (write_sheets [b; a; b]) = group_keys [b; a; b]
  /\ NoDup (map sheet_name (write_sheets [b; a; b]))
  /\ Sorted (fun x y => String.leb x y = true)
            (map sheet_name (write_sheets [b; a; b])).
Proof.
  intros b a. apply (sheet_names_sorted_unique [b; a; b]).
  repeat constructor; simpl; lia.
Defined.

(** ** Splitting *)

Lemma split_on_cons (sep a : ascii) (s : string) :
  Ascii.eqb a sep = false ->
  exists w ws, split_on sep s = w :: ws /\
               split_on sep (String a s) = String a w :: ws.
Proof.
  intros E. simpl. rewrite E.
  destruct (split_on sep s) as [|w ws] eqn:S.
  - now apply split_on_not_nil in S.
  - now exists w, ws.
Qed.

Lemma join_cons (sep : ascii) (w : string) (ws : list string) :
  ws <> [] -> join sep (w :: ws) = (w ++ String sep (join sep ws))%string.
Proof. destruct ws; [contradiction | reflexivity]. Qed.

(** X8.  Splitting loses nothing: the pieces joined with the separator
    give the string back, no piece holds the separator, and there is one
    piece more than there are separators.  So the proxy list always has
    one entry more than [PROXY_URLS] has commas, empty entries
    included. *)
Theorem split_on_join :
  forall (sep : ascii) (s : string),
    join sep (split_on sep s) = s
    /\ Forall (fun w => count_char sep w = 0) (split_on sep s)
    /\ List.length (split_on sep s) = S (count_char sep s).
Proof.
  intros sep s. induction s as [|a s (J & F & L)].
  - repeat split. repeat constructor.
  - destruct (Ascii.eqb a sep) eqn:E.
    + apply Ascii.eqb_eq in E. subst a. cbn [split_on count_char].
      rewrite Ascii.eqb_refl. split; [|split].
      * rewrite join_cons by apply split_on_not_nil. now rewrite J.
      * constructor; [reflexivity | exact F].
      * cbn [List.length]. rewrite L. reflexivity.
    + destruct (split_on_cons sep a s E) as (w & ws & S1 & S2).
      rewrite S2. rewrite S1 in J, F, L. cbn [count_char]. rewrite E.
      split; [|split].
      * destruct ws as [|w' ws]; cbn [join] in *; [now rewrite J|].
        now rewrite <- J.
      * inversion F as [|? ? Hw Hws]; subst. constructor; [|exact Hws].
        cbn [count_char]. rewrite E. exact Hw.
      * exact L.
Qed.

(** ** The attempts of the fetch phase, in general *)

Lemma sleeps_app (t u : list event) : sleeps (t ++ u) = sleeps t + sleeps u.
Proof.
  induction t as [|e t IH]; simpl; [reflexivity|].
  destruct e; simpl; now rewrite IH.
Qed.

Lemma fetched_some (w : world) (pos attempt : nat) (content : list byte) :
  fetched (get_pdf_with_proxy w pos attempt) = Some content ->
  http_get w pos attempt = Some (200%Z, content).
Proof.
  unfold get_pdf_with_proxy, fetched.
  destruct (http_get w pos attempt) as [[status c]|]; [|discriminate].
  destruct (raises_for_status status) eqn:Rs; [discriminate|].
  rewrite Rs. cbn [negb andb].
  destruct (Z.eqb_spec status 200) as [->|N]; congruence.
Qed.

(** X9.  An attempt counts as a success exactly when the request returns
    status 200: a transport error, a 4xx or 5xx status, and also any other
    status such as 204 make it a failed attempt. *)
Theorem fetched_iff_200 :
  forall (w : world) (pos attempt : nat) (content : list byte),
    fetched (get_pdf_with_proxy w pos attempt) = Some content
    <-> http_get w pos attempt = Some (200%Z, content).
Proof.
  intros w pos a content. split; [apply fetched_some|].
  intros E. unfold get_pdf_with_proxy, fetched. rewrite E. reflexivity.
Qed.

Lemma fetched_iff_200_witness :
  fetched (get_pdf_with_proxy
             (example_world (Some "") second_proxy_answers true true) 1 0)
  = Some example_document.
Proof.
  apply (proj2 (fetched_iff_200
                  (example_world (Some "") second_proxy_answers true true)
                  1 0 example_document)).
  reflexivity.
Defined.

Lemma retry_fetch_spec (w : world) (pos : nat) (url : string) (left : nat) :
  forall a0 t res,
    retry_fetch w pos url left a0 = (t, res) ->
    match res with
    | Some content =>
        exists n, n < left /\
          fetched (get_pdf_with_proxy w pos (a0 + n)) = Some content /\
          (forall b, b < n ->
                     fetched (get_pdf_with_proxy w pos (a0 + b)) = None) /\
          fetches t = repeat pos (S n) /\ sleeps t = n
    | None =>
        (forall b, b < left ->
                   fetched (get_pdf_with_proxy w pos (a0 + b)) = None) /\
        fetches t = repeat pos left /\ sleeps t = left
    end.
Proof.
  induction left as [|left IH]; intros a0 t res E; simpl in E.
  - injection E as <- <-. repeat split. intros; lia.
  - destruct (fetched (get_pdf_with_proxy w pos a0)) as [c|] eqn:F.
    + injection E as <- <-. exists 0. rewrite Nat.add_0_r.
      repeat split; auto; [lia | intros; lia].
    + destruct (retry_fetch w pos url left (S a0)) as [t' r'] eqn:R.
      injection E as <- <-. specialize (IH _ _ _ R).
      destruct r' as [c|].
      * destruct IH as (n & L & S1 & Fl & Ft & Sl). exists (S n).
        replace (a0 + S n) with (S a0 + n) by lia.
        repeat split; auto; [lia | | simpl; now rewrite Ft | simpl; now rewrite Sl].
        intros [|b] Lb; [now rewrite Nat.add_0_r|].
        replace (a0 + S b) with (S a0 + b) by lia. apply Fl. lia.
      * destruct IH as (Fl & Ft & Sl).
        repeat split; [| simpl; now rewrite Ft | simpl; now rewrite Sl].
        intros [|b] Lb; [now rewrite Nat.add_0_r|].
        replace (a0 + S b) with (S a0 + b) by lia. apply Fl. lia.
Qed.

Lemma rotate_fetch_spec (w : world) (urls : list string) :
  forall pos t res,
    rotate_fetch w pos urls = (t, res) ->
    match res with
    | Some content =>
        exists i a, i < List.length urls /\ a < 5 /\
          fetched (get_pdf_with_proxy w (pos + i) a) = Some content /\
          (forall i' b, i' < i -> b < 5 ->
                        fetched (get_pdf_with_proxy w (pos + i') b) = None) /\
          (forall b, b < a ->
                     fetched (get_pdf_with_proxy w (pos + i) b) = None) /\
          List.length (fetches t) = i * 5 + a + 1 /\ sleeps t = i * 5 + a
    | None =>
        (forall i b, i < List.length urls -> b < 5 ->
                     fetched (get_pdf_with_proxy w (pos + i) b) = None) /\
        List.length (fetches t) = List.length urls * 5 /\
        sleeps t = List.length urls * 5
    end.
Proof.
  induction urls as [|url urls IH]; intros pos t res E;
    cbn [rotate_fetch] in E.
  - injection E as <- <-. repeat split. intros; simpl in *; lia.
  - destruct (retry_fetch w pos url 5 0) as [t0 r0] eqn:R.
    apply retry_fetch_spec in R. destruct r0 as [c|].
    + injection E as <- <-. destruct R as (n & L & S1 & Fl & Ft & Sl).
      exists 0, n. rewrite Nat.add_0_r. cbn [Nat.add] in *.
      repeat split; auto; [simpl; lia | intros; lia |].
      rewrite Ft, repeat_length. lia.
    + destruct (rotate_fetch w (S pos) urls) as [t' r'] eqn:R'.
      injection E as <- <-. specialize (IH _ _ _ R').
      destruct R as (Fl & Ft & Sl). cbn [Nat.add] in Fl.
      rewrite fetches_app, sleeps_app, length_app, Ft, repeat_length, Sl.
      destruct r' as [c|].
      * destruct IH as (i & a & Li & La & S1 & Fp & Fa & Fn & Sn).
        exists (S i), a. replace (pos + S i) with (S pos + i) by lia.
        repeat split; auto; [simpl; lia | | lia | lia].
        intros [|i'] b Li' Lb; [rewrite Nat.add_0_r; now apply Fl|].
        replace (pos + S i') with (S pos + i') by lia. apply Fp; lia.
      * destruct IH as (Fp & Fn & Sn).
        repeat split; [| simpl; lia | simpl; lia].
        intros [|i] b Li Lb; [rewrite Nat.add_0_r; now apply Fl|].
        replace (pos + S i) with (S pos + i) by lia.
        apply Fp; simpl in Li; lia.
Qed.

Lemma sorted_repeat_app (pos n : nat) (l : list nat) :
  StronglySorted le l -> Forall (le pos) l ->
  StronglySorted le (repeat pos n ++ l).
Proof.
  intros S F. induction n as [|n IH]; simpl; [exact S|].
  constructor; [exact IH|]. apply Forall_app. split; [|exact F].
  apply Forall_forall. intros x Hx. apply repeat_spec in Hx. lia.
Qed.

Lemma rotate_fetch_sorted (w : world) (urls : list string) :
  forall pos,
    StronglySorted le (fetches (fst (rotate_fetch w pos urls)))
    /\ Forall (le pos) (fetches (fst (rotate_fetch w pos urls))).
Proof.
  induction urls as [|url urls IH]; intros pos; cbn [rotate_fetch].
  - split; constructor.
  - destruct (retry_fetch w pos url 5 0) as [t0 r0] eqn:R.
    apply retry_fetch_spec in R.
    assert (F0 : exists n, fetches t0 = repeat pos n).
    { destruct r0; break; eauto. }
    destruct F0 as (n & F0).
    assert (P0 : Forall (le pos) (repeat pos n)).
    { apply Forall_forall. intros x Hx. apply repeat_spec in Hx. lia. }
    destruct r0 as [c|]; cbn [fst].
    + rewrite F0. split; [|exact P0].
      rewrite <- (app_nil_r (repeat pos n)).
      apply sorted_repeat_app; constructor.
    + destruct (IH (S pos)) as [S1 F1].
      destruct (rotate_fetch w (S pos) urls) as [t' r']. cbn [fst] in *.
      assert (F1' : Forall (le pos) (fetches t')).
      { eapply Forall_impl; [|exact F1]. simpl. intros; lia. }
      rewrite fetches_app, F0. split.
      * now apply sorted_repeat_app.
      * apply Forall_app. now split.
Qed.

Section HandlerExtras.
Variable sha256 : list byte -> list byte.

Lemma send_all_sleeps (w : world) (data : list entry) :
  forall n, sleeps (send_all w n data) = 0.
Proof. induction data as [|e data IH]; intros n; simpl; auto. Qed.

Lemma send_all_writes (w : world) (data : list entry) :
  forall n, writes (send_all w n data) = [].
Proof. induction data as [|e data IH]; intros n; simpl; auto. Qed.

Lemma on_fetched_sleeps (w : world) (st : store) (exp : string)
    (content : list byte) :
  sleeps (trace (on_fetched sha256 w st exp content)) = 0.
Proof.
  destruct (on_fetched_cases sha256 w st exp content)
    as [(_ & ->) | [(_ & _ & ->) | [(_ & _ & _ & ->) | (_ & _ & _ & ->)]]];
    simpl; auto using send_all_sleeps.
Qed.

(** X10.  The document handled is the one of the first attempt that
    succeeds, in the order of the proxies and, for each, of its five
    attempts: when a run of the proxy loop does not end in exhaustion,
    some attempt [a] of some proxy [i] returned it, every attempt before
    failed, exactly [i * 5 + a + 1] fetches were made and each failed
    one was followed by a sleep. *)
Theorem proxy_loop_first_success :
  forall (w : world) (st : store) (exp : string) (proxy_urls : list string),
    let r := proxy_loop sha256 w st exp 0 proxy_urls in
    result r <> AllProxiesFailed ->
    exists i a content,
      i < List.length proxy_urls /\ a < 5 /\
      http_get w i a = Some (200%Z, content) /\
      (forall i' b, i' < i -> b < 5 ->
                    fetched (get_pdf_with_proxy w i' b) = None) /\
      (forall b, b < a -> fetched (get_pdf_with_proxy w i b) = None) /\
      List.length (fetches (trace r)) = i * 5 + a + 1 /\
      sleeps (trace r) = i * 5 + a /\
      result r = result (on_fetched sha256 w st exp content) /\
      store_after r = store_after (on_fetched sha256 w st exp content).
Proof.
  intros w st exp urls r N. unfold r in *. rewrite proxy_loop_fetch in *.
  destruct (rotate_fetch w 0 urls) as [t [content|]] eqn:E;
    [|now contradiction N].
  apply rotate_fetch_spec in E. cbn [Nat.add] in E.
  destruct E as (i & a & Li & La & S1 & Fp & Fa & Fn & Sn).
  exists i, a, content. unfold after_events. cbn [trace result store_after].
  rewrite fetches_app, sleeps_app, on_fetched_fetches, on_fetched_sleeps,
    app_nil_r, Nat.add_0_r.
  repeat split; auto. now apply fetched_some.
Qed.

(** X11.  Exhaustion is reported only when every one of the five
    attempts of every proxy failed; then five fetches per proxy were
    made, each followed by a sleep, the last one included, and the store
    was not touched. *)
Theorem proxy_loop_exhaustion :
  forall (w : world) (st : store) (exp : string) (proxy_urls : list string),
    let r := proxy_loop sha256 w st exp 0 proxy_urls in
    result r = AllProxiesFailed ->
    (forall i b, i < List.length proxy_urls -> b < 5 ->
                 fetched (get_pdf_with_proxy w i b) = None)
    /\ List.length (fetches (trace r)) = List.length proxy_urls * 5
    /\ sleeps (trace r) = List.length proxy_urls * 5
    /\ writes (trace r) = [] /\ sends (trace r) = []
    /\ store_after r = st.
Proof.
  intros w st exp urls r A. unfold r in *. rewrite proxy_loop_fetch in *.
  pose proof (rotate_fetch_quiet w urls 0) as Q.
  destruct (rotate_fetch w 0 urls) as [t [content|]] eqn:E.
  - exfalso. unfold after_events in A. cbn [result] in A.
    now apply (on_fetched_result sha256 w st exp content).
  - apply rotate_fetch_spec in E. cbn [Nat.add] in E.
    destruct E as (Fp & Fn & Sn). cbn [trace store_after fst] in *.
    repeat split; auto using quiet_writes, quiet_sends.
Qed.

(** X12.  Proxies are tried in the order of the list: in the trace of
    any run of the handler the positions of the fetch attempts never
    decrease. *)
Theorem fetch_order :
  forall (w : world) (st : store),
    StronglySorted le (fetches (trace (lambda_handler sha256 w st))).
Proof.
  intros w st. unfold lambda_handler.
  destruct (PROXY_URLS w) as [s|]; [|constructor].
  destruct (read_expected_hash w st) as [exp|]; [|constructor].
  rewrite proxy_loop_fetch.
  destruct (rotate_fetch_sorted w (split_on comma s) 0) as [S _].
  destruct (rotate_fetch w 0 (split_on comma s)) as [t [content|]];
    cbn [fst trace fetches] in *; [|exact S].
  unfold after_events. cbn [trace].
  now rewrite fetches_app, on_fetched_fetches, app_nil_r.
Qed.

(** X13.  What a run does to the store is one of four things: nothing;
    a failed delete, which leaves it as it was; a delete followed by a
    failed put, which leaves it empty; a delete followed by a put of the
    new hash and a newline.  No run deletes or puts more than once, and
    only the last case goes on to notify. *)
Theorem store_access_pattern :
  forall (w : world) (st : store),
    let r := lambda_handler sha256 w st in
    (writes (trace r) = [] /\ store_after r = st /\
     result r <> HashWriteError /\ result r <> Notified)
    \/ (writes (trace r) = [EvDelete false] /\ store_after r = st /\
        result r = HashWriteError)
    \/ (exists body,
          writes (trace r) = [EvDelete true; EvPut body false] /\
          store_after r = None /\ result r = HashWriteError)
    \/ (exists content,
          let body := (file_hash_of sha256 content ++ String newline "")%string in
          writes (trace r) = [EvDelete true; EvPut body true] /\
          store_after r = Some body /\ result r = Notified).
Proof.
  intros w st r.
  destruct (lambda_handler_shape sha256 w st)
    as [(Q & S & C) | (s & t & exp & content & _ & _ & _ & Q & R)];
    fold r in Q, S, C || fold r in R.
  - left. repeat split; auto using quiet_writes;
      destruct C as [C | [C | C]]; rewrite C; discriminate.
  - rewrite R. unfold after_events. cbn [trace result store_after].
    rewrite writes_app, (quiet_writes _ Q). cbn [app].
    destruct (on_fetched_cases sha256 w st exp content)
      as [(_ & C) | [(_ & _ & C) | [(_ & _ & _ & C) | (_ & _ & _ & C)]]];
      rewrite C; cbn [trace result store_after writes app].
    + left. repeat split; auto; discriminate.
    + right. left. repeat split; auto.
    + right. right. left. eexists. repeat split; auto.
    + right. right. right. exists content. cbn zeta.
      rewrite send_all_writes. repeat split; auto.
Qed.

(** X14.  After a run in which the put failed the store is empty, and
    from an empty store no run fetches, notifies or writes anything: the
    handler stays stuck at reading the hash until the object is put back
    from outside. *)
Theorem failed_put_blocks_later_runs :
  forall (w : world) (st : store),
    let r1 := lambda_handler sha256 w st in
    (exists body, In (EvPut body false) (trace r1)) ->
    store_after r1 = None
    /\ forall w',
         let r2 := lambda_handler sha256 w' (store_after r1) in
         (result r2 = Crashed \/ result r2 = HashReadError)
         /\ fetches (trace r2) = [] /\ sends (trace r2) = []
         /\ writes (trace r2) = [] /\ store_after r2 = None.
Proof.
  intros w st r1 (body & H).
  assert (S1 : store_after r1 = None).
  { destruct (lambda_handler_shape sha256 w st)
      as [(Q & _) | (s & t & exp & content & _ & _ & _ & Q & R)];
      fold r1 in Q || fold r1 in R.
    - apply (quiet_In _ _ Q) in H. discriminate.
    - rewrite R in H |- *. unfold after_events in H |- *.
      cbn [trace store_after] in H |- *.
      apply in_app_or in H. destruct H as [H|H];
        [apply (quiet_In _ _ Q) in H; discriminate|].
      destruct (on_fetched_cases sha256 w st exp content)
        as [(_ & C) | [(_ & _ & C) | [(_ & _ & _ & C) | (_ & _ & _ & C)]]];
        rewrite C in H |- *; cbn [trace store_after] in H |- *;
        try reflexivity.
      + contradiction.
      + destruct H as [H|[]]. discriminate.
      + apply in_app_or in H. destruct H as [H|H].
        * simpl in H. intuition discriminate.
        * apply send_all_In in H. destruct H as (b & ok & H). discriminate. }
  split; [exact S1|]. intros w' r2. unfold r2. rewrite S1.
  unfold lambda_handler, read_expected_hash.
  destruct (PROXY_URLS w'); [|simpl; auto 6].
  destruct (hash_get_ok w'); simpl; auto 6.
Qed.

(** X15.  A run that notifies sends exactly one message per entry that
    [parse_pdf] extracts from the fetched document, after the hash of
    that document was committed; so when the document cannot be opened
    the change is committed and nobody is told. *)
Theorem notified_run_sends :
  forall (w : world) (st : store),
    let r := lambda_handler sha256 w st in
    result r = Notified ->
    exists content,
      store_after r
      = Some (file_hash_of sha256 content ++ String newline "")%string
      /\ sends (trace r) = send_results w 0 (parse_pdf (pdf_pages w content))
      /\ (pdf_pages w content = None -> sends (trace r) = []).
Proof.
  intros w st r N.
  destruct (lambda_handler_shape sha256 w st)
    as [(_ & _ & [C | [C | C]]) | (s & t & exp & content & _ & _ & _ & Q & R)];
    fold r in C || fold r in R; try congruence.
  rewrite R in N |- *. unfold after_events in N |- *.
  cbn [trace result store_after] in N |- *.
  rewrite sends_app, (quiet_sends _ Q). cbn [app].
  destruct (on_fetched_cases sha256 w st exp content)
    as [(_ & C) | [(_ & _ & C) | [(_ & _ & _ & C) | (_ & _ & _ & C)]]];
    rewrite C in N |- *; try discriminate N.
  exists content. cbn [trace store_after sends app].
  rewrite sends_send_all. repeat split; auto.
  intros E. now rewrite E.
Qed.

(** ** Reading the stored hash *)

Lemma hash_char_upper_plain (a : ascii) :
  hash_char (upper_char a) = true -> is_space a = false.
Proof.
  destruct a as [[] [] [] [] [] [] [] []]; vm_compute;
    intros H; try discriminate H; reflexivity.
Qed.

Lemma upper_hash_no_space (v : string) :
  string_forall hash_char (upper v) = true ->
  string_forall (fun a => negb (is_space a)) v = true.
Proof.
  induction v as [|a v IH]; simpl; [reflexivity|].
  intros H. apply andb_prop in H. destruct H as [Ha Hv].
  now rewrite (hash_char_upper_plain a Ha), (IH Hv).
Qed.

Lemma lstrip_spaces (p s : string) :
  string_forall is_space p = true -> lstrip (p ++ s)%string = lstrip s.
Proof.
  induction p as [|a p IH]; simpl; [reflexivity|].
  intros H. apply andb_prop in H. destruct H as [-> Hp]. now apply IH.
Qed.

Lemma rstrip_spaces (p : string) :
  string_forall is_space p = true -> rstrip p = "".
Proof.
  induction p as [|a p IH]; simpl; [reflexivity|].
  intros H. apply andb_prop in H. destruct H as [Ha Hp].
  now rewrite (IH Hp), Ha.
Qed.

Lemma rstrip_pad (v p : string) :
  string_forall (fun a => negb (is_space a)) v = true ->
  string_forall is_space p = true ->
  rstrip (v ++ p)%string = v.
Proof.
  intros Hv Hp. induction v as [|a v IH]; [now apply rstrip_spaces|].
  cbn [string_forall] in Hv. apply andb_prop in Hv. destruct Hv as [Ha Hv].
  cbn [append rstrip]. rewrite (IH Hv).
  apply negb_true_iff in Ha. rewrite Ha. now destruct v.
Qed.

Lemma strip_pad (p1 v p2 : string) :
  string_forall (fun a => negb (is_space a)) v = true ->
  string_forall is_space p1 = true -> string_forall is_space p2 = true ->
  strip (p1 ++ v ++ p2)%string = v.
Proof.
  intros Hv H1 H2. unfold strip. rewrite (lstrip_spaces p1 _ H1).
  destruct v as [|a v].
  - cbn [append].
    assert (L : lstrip p2 = "").
    { clear -H2. induction p2 as [|a p IH]; simpl in *; [reflexivity|].
      apply andb_prop in H2. destruct H2 as [-> Hp]. now apply IH. }
    now rewrite L.
  - assert (Ha : is_space a = false).
    { cbn [string_forall] in Hv. apply andb_prop in Hv.
      now apply negb_true_iff, (proj1 Hv). }
    cbn [append lstrip]. rewrite Ha.
    exact (rstrip_pad (String a v) p2 Hv H2).
Qed.

(** X16.  The stored hash is compared without regard to letter case or
    to whitespace around it: whenever the stored text is the hash of the
    document in any mix of cases, with whitespace before and after, the
    expected hash read is the computed one and the document counts as
    unchanged, with nothing done. *)
Theorem stored_hash_normalised :
  forall (w : world) (content : list byte) (v p1 p2 : string),
    hash_get_ok w = true ->
    upper v = file_hash_of sha256 content ->
    string_forall is_space p1 = true -> string_forall is_space p2 = true ->
    let st := Some (p1 ++ v ++ p2)%string in
    read_expected_hash w st = Some (file_hash_of sha256 content)
    /\ on_fetched sha256 w st (file_hash_of sha256 content) content
       = mk_run [] st NoChange.
Proof.
  intros w content v p1 p2 G U H1 H2 st. split.
  - unfold st, read_expected_hash. rewrite G. cbn [option_map].
    rewrite strip_pad; auto; [now rewrite U|].
    apply upper_hash_no_space. rewrite U. apply upper_hex.
  - unfold on_fetched. now rewrite String.eqb_refl.
Qed.
End HandlerExtras.

(** ** The table strategy, further *)

Lemma parse_pages_app (pre : list table) (tail : list (option table)) :
  forall acc,
    parse_pages (map Some pre ++ tail) acc
    = parse_pages tail
        (acc ++ flat_map (fun tbl => flat_map row_entries tbl) pre).
Proof.
  induction pre as [|tbl pre IH]; intros acc; simpl.
  - now rewrite app_nil_r.
  - rewrite IH. now rewrite app_assoc.
Qed.

(** X17.  Partial extraction: when reading a page raises, the entries of
    the pages before it are returned and the pages after it are not
    read; when the document cannot be opened there are no entries. *)
Theorem parse_pdf_partial :
  forall (pre : list table) (rest : list (option table)),
    parse_pdf (Some (map Some pre ++ None :: rest))
    = parse_pdf (Some (map Some pre))
    /\ parse_pdf None = [].
Proof.
  intros pre rest. split; [|reflexivity]. unfold parse_pdf.
  rewrite parse_pages_app, parse_pages_all. reflexivity.
Qed.

Lemma row_entries_length (tbl : table) :
  List.length (flat_map row_entries tbl)
  = List.length (filter (fun r => 6 <=? List.length r) tbl).
Proof.
  induction tbl as [|r tbl IH]; [reflexivity|].
  cbn [flat_map filter]. rewrite length_app, IH. unfold row_entries.
  now destruct (6 <=? List.length r).
Qed.

(** X18.  The number of entries is the number of tables of six rows or
    more in the document; the rows of a table after the sixth have no
    effect on its entry; and on what [extract_tables] answers the six
    fields of every entry are rows of a table, lists of cells, never a
    cell. *)
Theorem parse_pdf_count :
  forall pages : list table,
    List.length (parse_pdf (Some (map Some pages)))
    = List.length (filter (fun tbl => 6 <=? List.length tbl)
                          (List.concat pages))
    /\ (forall tbl extra, 6 <= List.length tbl ->
                          row_entries (tbl ++ extra) = row_entries tbl)
    /\ (Forall tables_of_rows pages ->
        Forall (fun e => is_row (e_Date e) = true /\
                         is_row (e_Water e) = true /\
                         is_row (e_City_Town e) = true /\
                         is_row (e_Species e) = true /\
                         is_row (e_QTY e) = true /\
                         is_row (e_Size e) = true)
               (parse_pdf (Some (map Some pages)))).
Proof.
  intros pages. split; [|split].
  - unfold parse_pdf. rewrite parse_pages_all. cbn [app].
    induction pages as [|tbl pages IH]; [reflexivity|].
    cbn [flat_map List.concat]. rewrite filter_app, !length_app, IH.
    now rewrite row_entries_length.
  - intros r extra L. unfold row_entries. rewrite length_app.
    destruct (Nat.leb_spec 6 (List.length r)) as [_|]; [|lia].
    destruct (Nat.leb_spec 6 (List.length r + List.length extra)) as [_|];
      [|lia].
    now rewrite !app_nth1 by lia.
  - intros W. apply Forall_forall. intros e H. cbn [parse_pdf] in H.
    apply parse_pages_In in H.
    destruct H as [[] | (page & tbl & Hp & Ht & He)].
    apply in_map_iff in Hp. destruct Hp as (page' & E & Hp).
    injection E as ->.
    pose proof (proj1 (Forall_forall _ _) W page Hp) as Wp.
    pose proof (proj1 (Forall_forall _ _) Wp tbl Ht) as Wt.
    apply row_entries_In in He. destruct He as [L ->].
    cbn [e_Date e_Water e_City_Town e_Species e_QTY e_Size].
    repeat split;
      apply (proj1 (forallb_forall is_row tbl) Wt), nth_In; lia.
Qed.

Lemma parse_pdf_count_witness :
  row_entries (example_rows
               ++ [example_row "3/5/2024" "EMBDEN P" "EMBDEN" "BROOK TROUT"
                               "150" "9"])
  = row_entries example_rows
  /\ Forall (fun e => is_row (e_Date e) = true /\
                      is_row (e_Water e) = true /\
                      is_row (e_City_Town e) = true /\
                      is_row (e_Species e) = true /\
                      is_row (e_QTY e) = true /\
                      is_row (e_Size e) = true)
            (parse_pdf (Some (map Some [example_table]))).
Proof.
  split.
  - apply (proj1 (proj2 (parse_pdf_count []))). simpl. lia.
  - apply (proj2 (proj2 (parse_pdf_count [example_table]))).
    repeat constructor.
Defined.

(** ** The further properties on example worlds *)

Lemma line_re_matches_witness :
  exists m,
    rmatch line_re "3/1/2024 KENNEBEC R WATERVILLE BROOK TROUT 300 10" = Some m.
Proof.
  apply (proj2 (line_re_matches
                  "3/1/2024 KENNEBEC R WATERVILLE BROOK TROUT 300 10")).
  exists (mk_pieces "3" "1" "2024" " " "KENNEBEC" " " "R WATERVILLE" " "
                    "BROOK TROUT" " " "300" " " "10"), "".
  split; [|reflexivity].
  unfold pieces_ok, run_of. simpl.
  repeat split; try discriminate; lia.
Defined.

Lemma proxy_loop_first_success_witness :
  let urls := ["http://p1:8080"; "http://p2:8080"] in
  let w := example_world (Some "") second_proxy_answers true true in
  let r := proxy_loop toy_digest w (Some "OLD") "OLD" 0 urls in
  exists i a content,
    i < List.length urls /\ a < 5 /\
    http_get w i a = Some (200%Z, content) /\
    (forall i' b, i' < i -> b < 5 ->
                  fetched (get_pdf_with_proxy w i' b) = None) /\
    (forall b, b < a -> fetched (get_pdf_with_proxy w i b) = None) /\
    List.length (fetches (trace r)) = i * 5 + a + 1 /\
    sleeps (trace r) = i * 5 + a /\
    result r = result (on_fetched toy_digest w (Some "OLD") "OLD" content) /\
    store_after r
    = store_after (on_fetched toy_digest w (Some "OLD") "OLD" content).
Proof.
  intros urls w r.
  apply (proxy_loop_first_success toy_digest w (Some "OLD") "OLD" urls).
  vm_compute. discriminate.
Defined.

Lemma proxy_loop_exhaustion_witness :
  let urls := ["http://p1:8080"; "http://p2:8080"] in
  let w := example_world (Some "") no_proxy_answers true true in
  let r := proxy_loop toy_digest w (Some "OLD") "OLD" 0 urls in
  List.length (fetches (trace r)) = 2 * 5 /\ sleeps (trace r) = 2 * 5.
Proof.
  intros urls w r.
  destruct (proxy_loop_exhaustion toy_digest w (Some "OLD") "OLD" urls)
    as (_ & F & S & _).
  - vm_compute. reflexivity.
  - split; assumption.
Defined.

Lemma failed_put_blocks_later_runs_witness :
  let w := example_world (Some "http://p1:8080,http://p2:8080")
                         second_proxy_answers true false in
  let w' := example_world (Some "http://p1:8080,http://p2:8080")
                          second_proxy_answers true true in
  let r1 := lambda_handler toy_digest w (Some "OLD") in
  let r2 := lambda_handler toy_digest w' (store_after r1) in
  store_after r1 = None
  /\ (result r2 = Crashed \/ result r2 = HashReadError)
  /\ fetches (trace r2) = [] /\ sends (trace r2) = [].
Proof.
  intros w w' r1 r2.
  destruct (failed_put_blocks_later_runs toy_digest w (Some "OLD"))
    as (S1 & H).
  - eexists. vm_compute. do 13 right. left. reflexivity.
  - split; [exact S1|]. destruct (H w') as (R & F & S & _).
    repeat split; assumption.
Defined.

Lemma notified_run_sends_witness :
  let w := example_world (Some "http://p1:8080,http://p2:8080")
                         second_proxy_answers true true in
  let r := lambda_handler toy_digest w (Some "OLD") in
  exists content,
    store_after r
    = Some (file_hash_of toy_digest content ++ String newline "")%string
    /\ sends (trace r) = send_results w 0 (parse_pdf (pdf_pages w content))
    /\ (pdf_pages w content = None -> sends (trace r) = []).
Proof.
  intros w r. apply (notified_run_sends toy_digest w (Some "OLD")).
  vm_compute. reflexivity.
Defined.

Lemma stored_hash_normalised_witness :
  let w := example_world (Some "http://p1:8080") second_proxy_answers
                         true true in
  read_expected_hash w (Some "  aBcd
")
  = Some (file_hash_of toy_digest [xab; xcd])
  /\ on_fetched toy_digest w (Some "  aBcd
") (file_hash_of toy_digest [xab; xcd]) [xab; xcd]
     = mk_run [] (Some "  aBcd
") NoChange.
Proof.
  intros w.
  apply (stored_hash_normalised toy_digest w [xab; xcd]
           "aBcd" "  " (String newline "")); reflexivity.
Defined.
